(** * VotingSystem: a shallow embedding of the vote ledger and its relayer pool

    The development follows [src/VotingSystem.sol] (the ledger contract, the
    [SimpleSemaphoreVerifier] that ships in the same file and the
    [MockSemaphoreVerifier] of the Foundry test-suite) and the two relayer
    selection helpers of the JavaScript side ([selectRandomRelayer] of the
    API server and [getRandomRelayer] of the relayer management script), and
    that script's [addRelayersToContract], [verifyRelayers] and
    [removeAllRelayers].

    Conventions:
    - [uint256] and [address] values are binary naturals ([N]); Solidity 0.8
      checked arithmetic is written out ([checked_add] reverts with
      [Panic 0x11] above [MAX_UINT256]);
    - a Solidity [mapping] is a [gmap] read through [mapping_get], which
      supplies the zero value of absent keys;
    - contract code lives in a state-and-revert monad [M]; a revert drops the
      working state, which is what the EVM does with a reverted call frame;
    - an external transaction is a [call] executed in an environment [env]
      ([msg.sender], [block.timestamp]); [execute] keeps the old state when
      the call reverts;
    - a memory array is a list; allocating one of more than 2^64 - 1
      elements reverts with [Panic 0x41];
    - gas is not part of the model: every call is given enough of it. *)

From Stdlib Require Import NArith ZArith QArith Qround List String Lia Lqa.
From stdpp Require Import base option list gmap.

Local Open Scope N_scope.

(** ** Machine types *)

Abbreviation uint256 := N (only parsing).
Abbreviation address := N (only parsing).

Definition MAX_UINT256 : N := 2 ^ 256 - 1.

(** [uint[2]], [uint[2][2]] and [uint[4]] calldata arrays. *)
Definition uint_2 : Type := N * N.
Definition uint_2_2 : Type := uint_2 * uint_2.
Definition uint_4 : Type := N * N * N * N.

(** [publicSignals[0]] *)
Definition signal0 (publicSignals : uint_4) : N :=
  let '(s0, _, _, _) := publicSignals in s0.

(** ** Errors and events *)

Inductive error : Type :=
  (* custom errors of VotingSystem *)
  | VotingNotActive
  | VotingAlreadyInitialized
  | InvalidCandidate
  | NullifierAlreadyUsed
  | UnauthorizedRelayer
  | InvalidProof
  | InvalidTimeRange
  (* OpenZeppelin Ownable, Pausable, ReentrancyGuard *)
  | OwnableUnauthorizedAccount (account : address)
  | OwnableInvalidOwner (account : address)
  | EnforcedPause
  | ExpectedPause
  | ReentrancyGuardReentrantCall
  (* require(cond, "reason") *)
  | Error (reason : string)
  (* compiler inserted checks: 0x11 is arithmetic overflow *)
  | Panic (code : N).

Inductive event : Type :=
  | VoteCast (candidateId nullifierHash : uint256) (relayer : address)
             (timestamp : uint256)
  | VotingConfigured (groupId startTime endTime candidateCount : uint256)
  | RelayerAdded (relayer : address)
  | RelayerRemoved (relayer : address)
  | Paused (account : address)
  | Unpaused (account : address)
  | OwnershipTransferred (previousOwner newOwner : address).

Inductive result (A : Type) : Type :=
  | Ok (a : A)
  | Revert (e : error).
Arguments Ok {A} a.
Arguments Revert {A} e.

(** ** Storage *)

Record state : Type := mkState {
  owner : address;                      (* Ownable._owner *)
  paused : bool;                        (* Pausable._paused *)
  entered : bool;                       (* ReentrancyGuard._status == ENTERED *)
  votingGroupId : uint256;
  votingStartTime : uint256;
  votingEndTime : uint256;
  votingInitialized : bool;
  voteCounts : gmap N N;                (* candidateId => voteCount *)
  usedNullifiers : gmap N bool;         (* nullifierHash => used *)
  totalVotes : uint256;
  candidateCount : uint256;
  authorizedRelayers : gmap N bool;
  relayerAddresses : list N;
  events : list event                   (* the emitted log, oldest first *)
}.

Record env : Type := mkEnv {
  msg_sender : address;
  block_timestamp : uint256
}.

(** Reading a mapping: absent keys hold the zero value. *)
Definition mapping_get {V : Type} (zero : V) (m : gmap N V) (k : N) : V :=
  default zero (m !! k).

Definition getVoteCount (s : state) (candidateId : uint256) : uint256 :=
  mapping_get 0 (voteCounts s) candidateId.

Definition isNullifierUsed (s : state) (nullifierHash : uint256) : bool :=
  mapping_get false (usedNullifiers s) nullifierHash.

Definition isAuthorizedRelayer (s : state) (a : address) : bool :=
  mapping_get false (authorizedRelayers s) a.

Definition getRelayers (s : state) : list N := relayerAddresses s.

(** Field updates. *)
Definition set_owner (v : address) (s : state) : state :=
  mkState v (paused s) (entered s) (votingGroupId s) (votingStartTime s)
    (votingEndTime s) (votingInitialized s) (voteCounts s) (usedNullifiers s)
    (totalVotes s) (candidateCount s) (authorizedRelayers s)
    (relayerAddresses s) (events s).

Definition set_paused (v : bool) (s : state) : state :=
  mkState (owner s) v (entered s) (votingGroupId s) (votingStartTime s)
    (votingEndTime s) (votingInitialized s) (voteCounts s) (usedNullifiers s)
    (totalVotes s) (candidateCount s) (authorizedRelayers s)
    (relayerAddresses s) (events s).

Definition set_entered (v : bool) (s : state) : state :=
  mkState (owner s) (paused s) v (votingGroupId s) (votingStartTime s)
    (votingEndTime s) (votingInitialized s) (voteCounts s) (usedNullifiers s)
    (totalVotes s) (candidateCount s) (authorizedRelayers s)
    (relayerAddresses s) (events s).

Definition set_config (g st en cc : uint256) (s : state) : state :=
  mkState (owner s) (paused s) (entered s) g st en true (voteCounts s)
    (usedNullifiers s) (totalVotes s) cc (authorizedRelayers s)
    (relayerAddresses s) (events s).

Definition set_voteCounts (v : gmap N N) (s : state) : state :=
  mkState (owner s) (paused s) (entered s) (votingGroupId s)
    (votingStartTime s) (votingEndTime s) (votingInitialized s) v
    (usedNullifiers s) (totalVotes s) (candidateCount s)
    (authorizedRelayers s) (relayerAddresses s) (events s).

Definition set_usedNullifiers (v : gmap N bool) (s : state) : state :=
  mkState (owner s) (paused s) (entered s) (votingGroupId s)
    (votingStartTime s) (votingEndTime s) (votingInitialized s)
    (voteCounts s) v (totalVotes s) (candidateCount s)
    (authorizedRelayers s) (relayerAddresses s) (events s).

Definition set_totalVotes (v : uint256) (s : state) : state :=
  mkState (owner s) (paused s) (entered s) (votingGroupId s)
    (votingStartTime s) (votingEndTime s) (votingInitialized s)
    (voteCounts s) (usedNullifiers s) v (candidateCount s)
    (authorizedRelayers s) (relayerAddresses s) (events s).

Definition set_authorizedRelayers (v : gmap N bool) (s : state) : state :=
  mkState (owner s) (paused s) (entered s) (votingGroupId s)
    (votingStartTime s) (votingEndTime s) (votingInitialized s)
    (voteCounts s) (usedNullifiers s) (totalVotes s) (candidateCount s)
    v (relayerAddresses s) (events s).

Definition set_relayerAddresses (v : list N) (s : state) : state :=
  mkState (owner s) (paused s) (entered s) (votingGroupId s)
    (votingStartTime s) (votingEndTime s) (votingInitialized s)
    (voteCounts s) (usedNullifiers s) (totalVotes s) (candidateCount s)
    (authorizedRelayers s) v (events s).

Definition add_event (ev : event) (s : state) : state :=
  mkState (owner s) (paused s) (entered s) (votingGroupId s)
    (votingStartTime s) (votingEndTime s) (votingInitialized s)
    (voteCounts s) (usedNullifiers s) (totalVotes s) (candidateCount s)
    (authorizedRelayers s) (relayerAddresses s) (events s ++ [ev]).

(** ** The contract monad *)

Definition M (A : Type) : Type := state -> result (A * state).

Definition ret {A : Type} (a : A) : M A := fun s => Ok (a, s).

Definition bind {A B : Type} (m : M A) (k : A -> M B) : M B :=
  fun s => match m s with
           | Ok (a, s') => k a s'
           | Revert e => Revert e
           end.

Definition revert {A : Type} (e : error) : M A := fun _ => Revert e.

Definition get : M state := fun s => Ok (s, s).

Definition modify (f : state -> state) : M unit := fun s => Ok (tt, f s).

Definition emit (ev : event) : M unit := modify (add_event ev).

(** [require(cond, reason)] *)
Definition require (cond : bool) (reason : string) : M unit :=
  if cond then ret tt else revert (Error reason).

(** Checked [uint256] addition. *)
Definition checked_add (x y : uint256) : M uint256 :=
  if x + y <=? MAX_UINT256 then ret (x + y) else revert (Panic 17).

(** The result of a [view] call into another contract: its returned value, or
    the revert it bubbles up. *)
Definition external_view {A : Type} (r : result A) : M A :=
  fun s => match r with
           | Ok a => Ok (a, s)
           | Revert e => Revert e
           end.

Declare Scope contract_scope.
Delimit Scope contract_scope with contract.
Notation "x <- m ;; k" := (bind m (fun x => k))
  (at level 100, m at next level, right associativity) : contract_scope.
Notation "m ;;; k" := (bind m (fun _ => k))
  (at level 100, right associativity) : contract_scope.
Local Open Scope contract_scope.

(** ** Inherited modifiers

    Modelled from the spec: the OpenZeppelin v5 base contracts [Ownable],
    [Pausable] and [ReentrancyGuard] are imported from [lib/] and are not part
    of the sources; their modifiers and entry points are written here from
    the library's interface as the contract and its tests use it
    ([Ownable(_initialOwner)], [Pausable.EnforcedPause]). *)

Definition onlyOwner (e : env) {A : Type} (body : M A) : M A :=
  s <- get ;;
  if msg_sender e =? owner s then body
  else revert (OwnableUnauthorizedAccount (msg_sender e)).

Definition whenNotPaused {A : Type} (body : M A) : M A :=
  s <- get ;;
  if paused s then revert EnforcedPause else body.

Definition whenPaused {A : Type} (body : M A) : M A :=
  s <- get ;;
  if paused s then body else revert ExpectedPause.

Definition nonReentrant {A : Type} (body : M A) : M A :=
  s <- get ;;
  if entered s then revert ReentrancyGuardReentrantCall
  else
    modify (set_entered true) ;;;
    a <- body ;;
    modify (set_entered false) ;;;
    ret a.

Definition _pause (e : env) : M unit :=
  whenNotPaused (modify (set_paused true) ;;; emit (Paused (msg_sender e))).

Definition _unpause (e : env) : M unit :=
  whenPaused (modify (set_paused false) ;;; emit (Unpaused (msg_sender e))).

Definition _transferOwnership (newOwner : address) : M unit :=
  s <- get ;;
  modify (set_owner newOwner) ;;;
  emit (OwnershipTransferred (owner s) newOwner).

Definition transferOwnership (e : env) (newOwner : address) : M unit :=
  onlyOwner e
    (if newOwner =? 0 then revert (OwnableInvalidOwner 0)
     else _transferOwnership newOwner).

Definition renounceOwnership (e : env) : M unit :=
  onlyOwner e (_transferOwnership 0).

(** ** Modifiers of VotingSystem *)

Definition onlyDuringVoting (e : env) {A : Type} (body : M A) : M A :=
  s <- get ;;
  if (block_timestamp e <? votingStartTime s)
     || (votingEndTime s <? block_timestamp e)
  then revert VotingNotActive
  else body.

Definition onlyAuthorizedRelayer (e : env) {A : Type} (body : M A) : M A :=
  s <- get ;;
  if negb (isAuthorizedRelayer s (msg_sender e))
  then revert UnauthorizedRelayer
  else body.

(** ** The proof verifier

    [ISemaphoreVerifier.verifyProof] is an external [view] function: a pure
    oracle on the proof and its public signals which answers or reverts. *)

Definition verifier : Type :=
  uint_2 -> uint_2_2 -> uint_2 -> uint_4 -> uint256 -> result bool.

(** [SimpleSemaphoreVerifier.verifyProof]; the length requirements on the
    fixed-size arrays hold by typing, the depth requirement remains. *)
Definition SimpleSemaphoreVerifier : verifier :=
  fun a b c publicSignals merkleTreeDepth =>
    if (0 <? merkleTreeDepth) && (merkleTreeDepth <=? 32)
    then Ok true
    else Revert (Error "Invalid merkle tree depth").

(** [MockSemaphoreVerifier.verifyProof] of the test-suite. *)
Definition MockSemaphoreVerifier (shouldReturnTrue : bool) : verifier :=
  fun a b c publicSignals merkleTreeDepth => Ok shouldReturnTrue.

(** ** removeRelayer's array loop

    [for (i = 0; i < relayerAddresses.length; i++)]: the first slot holding
    [_relayer] receives the last element, the array is popped and the loop
    breaks. [fuel] counts the iterations still allowed; the caller passes the
    array length. *)
Fixpoint removeRelayer_loop (_relayer : address) (arr : list N)
    (i fuel : nat) : list N :=
  match fuel with
  | O => arr
  | S fuel' =>
      match arr !! i with
      | None => arr                                   (* i < length fails *)
      | Some x =>
          if x =? _relayer then
            match arr !! (length arr - 1)%nat with
            | Some l => take (length arr - 1)%nat (<[i := l]> arr)
            | None => arr
            end
          else removeRelayer_loop _relayer arr (S i) fuel'
      end
  end.

Section Contract.

Variable semaphoreVerifier : verifier.

(** *** Admin functions *)

Definition initializeVoting (e : env)
    (_groupId _startTime _endTime _candidateCount : uint256) : M unit :=
  onlyOwner e
    (s <- get ;;
     if votingInitialized s then revert VotingAlreadyInitialized
     else if (_endTime <=? _startTime) || (_startTime <? block_timestamp e)
     then revert InvalidTimeRange
     else if _candidateCount =? 0 then revert InvalidCandidate
     else
       modify (set_config _groupId _startTime _endTime _candidateCount) ;;;
       emit (VotingConfigured _groupId _startTime _endTime _candidateCount)).

Definition addRelayer (e : env) (_relayer : address) : M unit :=
  onlyOwner e
    (require (negb (_relayer =? 0)) "Invalid relayer address" ;;;
     s <- get ;;
     require (negb (isAuthorizedRelayer s _relayer))
             "Relayer already exists" ;;;
     modify (fun s =>
       set_authorizedRelayers (<[_relayer := true]> (authorizedRelayers s)) s) ;;;
     modify (fun s =>
       set_relayerAddresses (relayerAddresses s ++ [_relayer]) s) ;;;
     emit (RelayerAdded _relayer)).

Definition removeRelayer (e : env) (_relayer : address) : M unit :=
  onlyOwner e
    (s <- get ;;
     require (isAuthorizedRelayer s _relayer) "Relayer not found" ;;;
     modify (fun s =>
       set_authorizedRelayers (<[_relayer := false]> (authorizedRelayers s)) s) ;;;
     modify (fun s =>
       set_relayerAddresses
         (removeRelayer_loop _relayer (relayerAddresses s) 0
            (length (relayerAddresses s))) s) ;;;
     emit (RelayerRemoved _relayer)).

(** *** Core voting function *)

Definition castVote (e : env) (candidateId nullifierHash : uint256)
    (a : uint_2) (b : uint_2_2) (c : uint_2) (publicSignals : uint_4)
    (merkleTreeDepth : uint256) : M unit :=
  nonReentrant
    (whenNotPaused
       (onlyDuringVoting e
          (onlyAuthorizedRelayer e
             (s <- get ;;
              (* Validate candidate *)
              if candidateCount s <=? candidateId
              then revert InvalidCandidate
              else if negb (candidateId =? signal0 publicSignals)
              then revert InvalidCandidate
              (* Check nullifier hasn't been used *)
              else if isNullifierUsed s nullifierHash
              then revert NullifierAlreadyUsed
              else
                proofValid <- external_view
                  (semaphoreVerifier a b c publicSignals merkleTreeDepth) ;;
                if negb proofValid then revert InvalidProof
                else
                  (* Mark nullifier as used *)
                  modify (fun s =>
                    set_usedNullifiers
                      (<[nullifierHash := true]> (usedNullifiers s)) s) ;;;
                  (* voteCounts[candidateId]++ *)
                  s1 <- get ;;
                  v <- checked_add (getVoteCount s1 candidateId) 1 ;;
                  modify (fun s =>
                    set_voteCounts (<[candidateId := v]> (voteCounts s)) s) ;;;
                  (* totalVotes++ *)
                  s2 <- get ;;
                  t <- checked_add (totalVotes s2) 1 ;;
                  modify (set_totalVotes t) ;;;
                  emit (VoteCast candidateId nullifierHash (msg_sender e)
                          (block_timestamp e)))))).

(** *** Emergency functions *)

Definition pauseVoting (e : env) : M unit := onlyOwner e (_pause e).

Definition unpauseVoting (e : env) : M unit := onlyOwner e (_unpause e).

(** *** External transactions *)

Inductive call : Type :=
  | InitializeVoting (_groupId _startTime _endTime _candidateCount : uint256)
  | AddRelayer (_relayer : address)
  | RemoveRelayer (_relayer : address)
  | CastVote (candidateId nullifierHash : uint256) (a : uint_2)
             (b : uint_2_2) (c : uint_2) (publicSignals : uint_4)
             (merkleTreeDepth : uint256)
  | PauseVoting
  | UnpauseVoting
  | TransferOwnership (newOwner : address)
  | RenounceOwnership.

Definition dispatch (e : env) (c : call) : M unit :=
  match c with
  | InitializeVoting g st en cc => initializeVoting e g st en cc
  | AddRelayer r => addRelayer e r
  | RemoveRelayer r => removeRelayer e r
  | CastVote cid nh a b c ps d => castVote e cid nh a b c ps d
  | PauseVoting => pauseVoting e
  | UnpauseVoting => unpauseVoting e
  | TransferOwnership o => transferOwnership e o
  | RenounceOwnership => renounceOwnership e
  end.

(** The state after a transaction: a revert restores the state the
    transaction started from. *)
Definition execute (e : env) (c : call) (s : state) : state :=
  match dispatch e c s with
  | Ok (_, s') => s'
  | Revert _ => s
  end.

Definition succeeds (e : env) (c : call) (s : state) : bool :=
  match dispatch e c s with
  | Ok _ => true
  | Revert _ => false
  end.

Definition failure (e : env) (c : call) (s : state) : option error :=
  match dispatch e c s with
  | Ok _ => None
  | Revert err => Some err
  end.

Definition trace : Type := list (env * call).

Fixpoint run (tr : trace) (s : state) : state :=
  match tr with
  | [] => s
  | (e, c) :: tr' => run tr' (execute e c s)
  end.

(** Number of transactions of [tr] that satisfy [sel] and succeed. *)
Fixpoint successes (sel : call -> bool) (tr : trace) (s : state) : nat :=
  match tr with
  | [] => O
  | (e, c) :: tr' =>
      ((if sel c && succeeds e c s then 1 else 0)
       + successes sel tr' (execute e c s))%nat
  end.

(** What the transactions of [tr] that satisfy [sel] add to [totalVotes]. *)
Fixpoint votes_added (sel : call -> bool) (tr : trace) (s : state) : N :=
  match tr with
  | [] => 0
  | (e, c) :: tr' =>
      (if sel c then totalVotes (execute e c s) - totalVotes s else 0)
      + votes_added sel tr' (execute e c s)
  end.

End Contract.

Definition is_castVote (c : call) : bool :=
  match c with
  | CastVote _ _ _ _ _ _ _ => true
  | _ => false
  end.

Definition carries_nullifier (n : uint256) (c : call) : bool :=
  match c with
  | CastVote _ nh _ _ _ _ _ => nh =? n
  | _ => false
  end.

(** ** Deployment

    [constructor(_initialOwner, _semaphoreVerifier) Ownable(_initialOwner)]:
    every storage slot starts at zero and [Ownable] installs the owner,
    refusing the zero address. *)
Definition zero_state : state :=
  mkState 0 false false 0 0 0 false ∅ ∅ 0 0 ∅ [] [].

Definition constructor (_initialOwner : address) : result state :=
  if _initialOwner =? 0 then Revert (OwnableInvalidOwner 0)
  else
    match _transferOwnership _initialOwner zero_state with
    | Ok (_, s) => Ok s
    | Revert e => Revert e
    end.

(** States the deployed contract can be in: the constructor's state followed
    by any transactions, from any senders at any timestamps. *)
Definition reachable (semaphoreVerifier : verifier) (s : state) : Prop :=
  exists (_initialOwner : address) (s0 : state) (tr : trace),
    constructor _initialOwner = Ok s0 /\ s = run semaphoreVerifier tr s0.

(** ** View functions *)

Definition isVotingActive (e : env) (s : state) : bool :=
  votingInitialized s
  && (votingStartTime s <=? block_timestamp e)
  && (block_timestamp e <=? votingEndTime s)
  && negb (paused s).

(** Candidate ids [0 .. n-1]. *)
Definition candidate_ids (n : uint256) : list N :=
  map N.of_nat (seq 0 (N.to_nat n)).

(** The longest array [new uint256[](n)] allocates: past 2^64 - 1 elements
    the allocation reverts with [Panic(0x41)]. *)
Definition MAX_ARRAY_LENGTH : N := 2 ^ 64 - 1.

(** [new uint256[](n)]: [n] zeros. *)
Definition new_array (n : uint256) : result (list N) :=
  if n <=? MAX_ARRAY_LENGTH then Ok (replicate (N.to_nat n) 0)
  else Revert (Panic 65).

(** The loop of [getAllVoteCounts]: [counts[i] = voteCounts[i]]; [fuel] is
    the number of iterations left, [candidateCount - i]. *)
Fixpoint counts_loop (s : state) (i : N) (fuel : nat) (counts : list N)
    : list N :=
  match fuel with
  | O => counts
  | S fuel' =>
      counts_loop s (i + 1) fuel' (<[N.to_nat i := getVoteCount s i]> counts)
  end.

(** [getAllVoteCounts()] *)
Definition getAllVoteCounts (s : state) : result (list N) :=
  match new_array (candidateCount s) with
  | Revert err => Revert err
  | Ok counts => Ok (counts_loop s 0 (N.to_nat (candidateCount s)) counts)
  end.

Definition getVotingInfo (s : state) : N * N * N * N * N :=
  (votingGroupId s, votingStartTime s, votingEndTime s, candidateCount s,
   totalVotes s).

(** Sum of [voteCounts[i]] over the candidate ids [i < candidateCount]. *)
Definition tally_sum (s : state) : N :=
  foldr N.add 0 (map (getVoteCount s) (candidate_ids (candidateCount s))).

(** ** Test fixtures

    The round of the specification's example scenario: three candidates, one
    relayer, a window of one hour. *)

Definition fixture_owner : address := 1.
Definition fixture_relayer : address := 7.
Definition fixture_start : uint256 := 1100.
Definition fixture_end : uint256 := 4700.

Definition fixture_deployed : state :=
  match constructor fixture_owner with
  | Ok s => s
  | Revert _ => zero_state
  end.

Definition fixture_vote (candidateId nullifierHash : uint256) : call :=
  CastVote candidateId nullifierHash (1, 2) ((3, 4), (5, 6)) (7, 8)
    (candidateId, 12345, 999, 1) 20.

Definition fixture_setup : trace :=
  [ (mkEnv fixture_owner 1000,
     InitializeVoting 1 fixture_start fixture_end 3);
    (mkEnv fixture_owner 1000, AddRelayer fixture_relayer) ].

(** The scenario itself: nullifier 0xAA for candidate 0, the same nullifier
    again for candidate 1, then nullifier 0xBB for candidate 1. *)
Definition fixture_scenario : trace :=
  fixture_setup ++
  [ (mkEnv fixture_relayer 1101, fixture_vote 0 170);
    (mkEnv fixture_relayer 1101, fixture_vote 1 170);
    (mkEnv fixture_relayer 1101, fixture_vote 1 187) ].

Definition fixture_open : state :=
  run (MockSemaphoreVerifier true) fixture_setup fixture_deployed.

Definition fixture_voted : state :=
  run (MockSemaphoreVerifier true) fixture_scenario fixture_deployed.

(** ** Vocabulary of the statements

    Closed forms of the states the entry points commit, the invariants of
    the reachable states, the sentences of the specification that are
    compared with the code, and the relayer selection helpers. *)

(** Symbolic execution of monadic code: unfold the monad and the field
    updates, nothing else. *)
Ltac monad_simpl :=
  cbv beta iota zeta delta
      [bind ret revert get modify emit require
       owner paused entered votingGroupId votingStartTime votingEndTime
       votingInitialized voteCounts usedNullifiers totalVotes candidateCount
       authorizedRelayers relayerAddresses events
       set_owner set_paused set_entered set_config set_voteCounts
       set_usedNullifiers set_totalVotes set_authorizedRelayers
       set_relayerAddresses add_event msg_sender block_timestamp] in *.

(** Case analysis on every boolean guard of the goal. *)
Ltac case_guards :=
  repeat match goal with
         | |- context [if ?b then _ else _] =>
             lazymatch type of b with
             | bool => destruct b
             end
         end.

(** The state a successful [castVote] commits. *)
Definition castVote_commit (e : env) (candidateId nullifierHash : uint256)
    (s : state) : state :=
  mkState (owner s) (paused s) false (votingGroupId s) (votingStartTime s)
    (votingEndTime s) (votingInitialized s)
    (<[candidateId := getVoteCount s candidateId + 1]> (voteCounts s))
    (<[nullifierHash := true]> (usedNullifiers s))
    (totalVotes s + 1) (candidateCount s) (authorizedRelayers s)
    (relayerAddresses s)
    (events s ++ [VoteCast candidateId nullifierHash (msg_sender e)
                    (block_timestamp e)]).

(** The state a successful [addRelayer] commits. *)
Definition addRelayer_commit (r : address) (s : state) : state :=
  add_event (RelayerAdded r)
    (set_relayerAddresses (relayerAddresses s ++ [r])
       (set_authorizedRelayers (<[r := true]> (authorizedRelayers s)) s)).

(** The state a successful [removeRelayer] commits. *)
Definition removeRelayer_commit (r : address) (s : state) : state :=
  add_event (RelayerRemoved r)
    (set_relayerAddresses
       (removeRelayer_loop r (relayerAddresses s) 0
          (length (relayerAddresses s)))
       (set_authorizedRelayers (<[r := false]> (authorizedRelayers s)) s)).

(** The counts of the candidate ids add up to [totalVotes], no count is
    kept at or above [candidateCount], and an unconfigured ledger has no
    candidates. *)
Definition tally_inv (s : state) : Prop :=
  tally_sum s = totalVotes s
  /\ (forall k, candidateCount s <= k -> getVoteCount s k = 0)
  /\ (votingInitialized s = false -> candidateCount s = 0).

(** A configured round has a non-empty window; an unconfigured ledger still
    holds the zero configuration, and no transaction is in flight between
    two transactions. *)
Definition config_inv (s : state) : Prop :=
  (votingInitialized s = true -> votingStartTime s < votingEndTime s)
  /\ (votingInitialized s = false ->
      votingStartTime s = 0 /\ votingEndTime s = 0 /\ candidateCount s = 0)
  /\ entered s = false.

(** The time gate on its own: the modifier around an empty body. *)
Definition time_gate (e : env) (s : state) : result (unit * state) :=
  onlyDuringVoting e (ret tt) s.

(** The array and the mapping describe the same set, without repetition, and
    the zero address is not in it. *)
Definition relayer_inv (s : state) : Prop :=
  NoDup (relayerAddresses s)
  /\ (forall a, a ∈ relayerAddresses s <-> isAuthorizedRelayer s a = true)
  /\ isAuthorizedRelayer s 0 = false.

(** How often an address occurs in the array [getRelayers] returns. *)
Definition occurrences (s : state) (a : address) : nat :=
  count_occ N.eq_dec (getRelayers s) a.

(** The specification's sentence, as worded: whatever else is wrong with a
    later call, a used nullifier makes it fail with [NullifierAlreadyUsed]. *)
Definition reuse_always_reports_NullifierAlreadyUsed (v : verifier) : Prop :=
  forall s e cid n a b c ps d,
    reachable v s -> isNullifierUsed s n = true ->
    failure v e (CastVote cid n a b c ps d) s = Some NullifierAlreadyUsed.

(** The four conditions of the submission's first step. *)
Inductive gate_condition : Type :=
  | RoundNotConfigured
  | RoundPending
  | RoundClosed
  | RoundPaused.

Definition condition_holds (k : gate_condition) (e : env) (s : state) : Prop :=
  match k with
  | RoundNotConfigured => votingInitialized s = false
  | RoundPending =>
      votingInitialized s = true /\ block_timestamp e < votingStartTime s
  | RoundClosed =>
      votingInitialized s = true /\ votingEndTime s < block_timestamp e
  | RoundPaused => paused s = true
  end.

(** The specification's sentence, as worded: rejections caused by two
    different conditions never carry the same error. A condition causes a
    rejection when it is the only one of the four that holds. *)
Definition gate_errors_distinguish (v : verifier) : Prop :=
  forall s1 s2 e1 e2 c1 c2 k1 k2 err,
    reachable v s1 -> reachable v s2 ->
    is_castVote c1 = true -> is_castVote c2 = true ->
    condition_holds k1 e1 s1 -> (forall k, condition_holds k e1 s1 -> k = k1) ->
    condition_holds k2 e2 s2 -> (forall k, condition_holds k e2 s2 -> k = k2) ->
    failure v e1 c1 s1 = Some err -> failure v e2 c2 s2 = Some err ->
    k1 = k2.

(** The stored round configuration. *)
Definition round_config (s : state) : N * N * N * N :=
  (votingGroupId s, votingStartTime s, votingEndTime s, candidateCount s).

(** The specification's sentence, as worded: any later [initializeVoting]
    is answered with [VotingAlreadyInitialized]. *)
Definition reinitialize_always_reports_AlreadyInitialized (v : verifier)
    : Prop :=
  forall s e g st en cc,
    reachable v s -> votingInitialized s = true ->
    failure v e (InitializeVoting g st en cc) s
    = Some VotingAlreadyInitialized.

(** The specification's sentence, as worded: the first call by the owner
    succeeds exactly when the window is well ordered, both times lie in the
    future and there is a candidate. *)
Definition initialize_needs_strictly_future_times (v : verifier) : Prop :=
  forall s e g st en cc,
    msg_sender e = owner s -> votingInitialized s = false ->
    (succeeds v e (InitializeVoting g st en cc) s = true <->
     st < en /\ block_timestamp e < st /\ block_timestamp e < en /\ 0 < cc).

(** ** Relayer selection on the JavaScript side

    A JavaScript call either returns a value or throws an [Error] with a
    message. Reading [arr[i]] outside the array yields [undefined], written
    [None]. Numbers are IEEE 754 binary64 doubles, held here as the
    rationals they denote: a finite non-negative double is [m * 2^e] with
    [m < 2^53] and [-1074 <= e], and the product of two doubles is the exact
    product rounded to the nearest double, ties going to the even
    significand. [Math.random()] is an input of the model, a double in
    [[0, 1)]. The length of an array is below 2^32 and is a double as it
    stands. *)

Inductive js_result (A : Type) : Type :=
  | Returned (a : A)
  | Thrown (message : string).
Arguments Returned {A} a.
Arguments Thrown {A} message.

Definition js_index {A : Type} (arr : list A) (i : Z) : option A :=
  if (i <? 0)%Z then None else arr !! Z.to_nat i.

(** The nearest integer, ties to the even one. *)
Definition round_half_even (y : Q) : Z :=
  let f := Qfloor y in
  match (y - inject_Z f ?= 1 # 2)%Q with
  | Lt => f
  | Gt => (f + 1)%Z
  | Eq => if Z.even f then f else (f + 1)%Z
  end.

(** The spacing of the doubles around [X], both counted in units of the
    smallest positive double, 2^-1074: below 2^53 units (the subnormals and
    the first binade of the normal numbers) the doubles are one unit apart;
    from [2^(52+p)] up to [2^(53+p)] units they are [2^p] units apart. *)
Definition double_ulp (X : Q) : Z :=
  let t := Qfloor X in
  if (t <? 2 ^ 53)%Z then 1%Z else (2 ^ (Z.log2 t - 52))%Z.

(** The double nearest to the rational [x], ties to even, for
    [0 <= x < 2^1024]. *)
Definition round_double (x : Q) : Q :=
  let X := (x * inject_Z (2 ^ 1074))%Q in
  let u := double_ulp X in
  (inject_Z (round_half_even (X / inject_Z u) * u) / inject_Z (2 ^ 1074))%Q.

(** The doubles in [[0, 1)], the values [Math.random()] can return:
    [m / 2^k] with a significand [m] below 2^53 and [k] at most 1074. *)
Definition unit_double (x : Q) : Prop :=
  exists m k : Z,
    (0 <= m < 2 ^ 53)%Z /\ (0 <= k <= 1074)%Z /\ (m < 2 ^ k)%Z
    /\ Qeq x (inject_Z m / inject_Z (2 ^ k)).

(** [Math.floor(Math.random() * length)] *)
Definition randomIndex (random : Q) (len : nat) : Z :=
  Qfloor (round_double (random * inject_Z (Z.of_nat len))).

(** [selectRandomRelayer] of the API server, over its [relayerWallets]. *)
Definition selectRandomRelayer {W : Type} (relayerWallets : list W)
    (random : Q) : js_result (option W) :=
  if (length relayerWallets =? 0)%nat
  then Thrown "No relayer wallets available"
  else Returned
         (js_index relayerWallets (randomIndex random (length relayerWallets))).

(** [getCurrentRelayers]: the array [contract.getRelayers()] answers, or the
    empty array when the call fails. *)
Definition getCurrentRelayers (rpc : js_result (list N)) : list N :=
  match rpc with
  | Returned relayers => relayers
  | Thrown _ => []
  end.

(** [getRandomRelayer] of the relayer management script. *)
Definition getRandomRelayer (rpc : js_result (list N)) (random : Q)
    : js_result (option N) :=
  let relayers := getCurrentRelayers rpc in
  if (length relayers =? 0)%nat
  then Thrown "No authorized relayers found"
  else Returned (js_index relayers (randomIndex random (length relayers))).

(** [await contract.getRelayers()] on a contract in state [s]: the call
    resolves with the contract's answer or, when the node cannot be
    reached, rejects; [failure] is the rejection, if there is one. *)
Definition contract_getRelayers (failure : option string) (s : state)
    : js_result (list N) :=
  match failure with
  | None => Returned (getRelayers s)
  | Some message => Thrown message
  end.

(** The specification's sentence, as worded: whenever the registry is not
    empty, selection returns one of its members. [relayerWallets] holds the
    addresses of the server's wallets. *)
Definition selection_returns_registry_member (v : verifier) : Prop :=
  forall (s : state) (relayerWallets : list address)
         (failure : option string) (random : Q),
    reachable v s -> unit_double random -> getRelayers s <> [] ->
    (exists r, selectRandomRelayer relayerWallets random = Returned (Some r)
               /\ r ∈ getRelayers s)
    /\ (exists r, getRandomRelayer (contract_getRelayers failure s) random
                  = Returned (Some r)
                  /\ r ∈ getRelayers s).

(** ** Further entry points of the ledger *)

(** Checked [uint256] subtraction, multiplication and division outside the
    monad, for [view] functions. *)
Definition checked_sub (x y : uint256) : result uint256 :=
  if y <=? x then Ok (x - y) else Revert (Panic 17).



(** [getRemainingTime()] *)
Definition getRemainingTime (e : env) (s : state) : result uint256 :=
  if votingEndTime s <? block_timestamp e then Ok 0
  else checked_sub (votingEndTime s) (block_timestamp e).



(** ** The audit trail

    The nullifiers and the candidate ids of the [VoteCast] records of a log,
    oldest first. *)
Fixpoint cast_nullifiers (log : list event) : list N :=
  match log with
  | [] => []
  | VoteCast _ nullifierHash _ _ :: rest => nullifierHash :: cast_nullifiers rest
  | _ :: rest => cast_nullifiers rest
  end.

Fixpoint cast_candidates (log : list event) : list N :=
  match log with
  | [] => []
  | VoteCast candidateId _ _ _ :: rest => candidateId :: cast_candidates rest
  | _ :: rest => cast_candidates rest
  end.

(** The log and the storage tell the same story. *)
Definition audit_inv (s : state) : Prop :=
  NoDup (cast_nullifiers (events s))
  /\ (forall n, n ∈ cast_nullifiers (events s) <-> isNullifierUsed s n = true)
  /\ (forall c,
        getVoteCount s c
        = N.of_nat (count_occ N.eq_dec (cast_candidates (events s)) c))
  /\ totalVotes s = N.of_nat (length (cast_candidates (events s)))
  /\ (forall c, c ∈ cast_candidates (events s) -> c < candidateCount s).

(** A timestamp outside the voting window of [s]. *)
Definition outside_window (s : state) (e : env) : Prop :=
  block_timestamp e < votingStartTime s
  \/ votingEndTime s < block_timestamp e.

(** ** The relayer management script

    [addRelayersToContract], [verifyRelayers] and [removeAllRelayers] drive
    the contract through an ethers [Contract] object. A read
    ([authorizedRelayers], [getRelayers]) answers from the current state. A
    write is sent from the account of [ownerPrivateKey]: when the call would
    revert, sending throws and the script's [catch] swallows the error;
    otherwise the transaction is mined ([tx.wait()]) and the state moves on.
    The script is the only sender while it runs. [clock k] is the timestamp
    of the block that holds the script's [k]-th transaction and [hash k] that
    transaction's hash. Console output, the pause between transactions and
    the wall-clock record written to [relayer-transactions.json] (which
    repeats the returned list) are left out. [None] stands for
    [undefined]. *)





Section Script.

Variable semaphoreVerifier : verifier.
Variable signer : address.
Variable clock : nat -> uint256.
Variable hash : nat -> N.






End Script.



(** Two states that agree on every storage slot; the logs may differ. *)
Definition same_storage (s1 s2 : state) : Prop :=
  owner s1 = owner s2
  /\ paused s1 = paused s2
  /\ entered s1 = entered s2
  /\ votingInitialized s1 = votingInitialized s2
  /\ round_config s1 = round_config s2
  /\ voteCounts s1 = voteCounts s2
  /\ usedNullifiers s1 = usedNullifiers s2
  /\ totalVotes s1 = totalVotes s2
  /\ authorizedRelayers s1 = authorizedRelayers s2
  /\ relayerAddresses s1 = relayerAddresses s2.

(** * Properties *)

(** ** Closed forms of the entry points *)

Lemma castVote_unfold (v : verifier) (e : env) (cid nh : N) (a : uint_2)
    (b : uint_2_2) (c : uint_2) (ps : uint_4) (d : N) (s : state) :
  castVote v e cid nh a b c ps d s =
  if entered s then Revert ReentrancyGuardReentrantCall
  else if paused s then Revert EnforcedPause
  else if (block_timestamp e <? votingStartTime s)
          || (votingEndTime s <? block_timestamp e)
  then Revert VotingNotActive
  else if negb (isAuthorizedRelayer s (msg_sender e))
  then Revert UnauthorizedRelayer
  else if candidateCount s <=? cid then Revert InvalidCandidate
  else if negb (cid =? signal0 ps) then Revert InvalidCandidate
  else if isNullifierUsed s nh then Revert NullifierAlreadyUsed
  else match v a b c ps d with
       | Revert err => Revert err
       | Ok false => Revert InvalidProof
       | Ok true =>
           if getVoteCount s cid + 1 <=? MAX_UINT256
           then if totalVotes s + 1 <=? MAX_UINT256
                then Ok (tt, castVote_commit e cid nh s)
                else Revert (Panic 17)
           else Revert (Panic 17)
       end.
Proof.
  unfold castVote, nonReentrant, whenNotPaused, onlyDuringVoting,
    onlyAuthorizedRelayer, external_view, checked_add, isAuthorizedRelayer,
    isNullifierUsed, getVoteCount, castVote_commit.
  destruct s; monad_simpl.
  destruct entered0; [reflexivity|]. monad_simpl.
  destruct paused0; [reflexivity|]. monad_simpl.
  destruct (_ || _); [reflexivity|]. monad_simpl.
  destruct (negb _); [reflexivity|]. monad_simpl.
  destruct (_ <=? cid); [reflexivity|]. monad_simpl.
  destruct (negb (cid =? signal0 ps)); [reflexivity|]. monad_simpl.
  destruct (mapping_get false _ nh); [reflexivity|]. monad_simpl.
  destruct (v a b c ps d) as [[|]|err]; cbn [negb]; monad_simpl;
    try reflexivity.
  destruct (_ <=? MAX_UINT256); monad_simpl; [|reflexivity].
  destruct (_ <=? MAX_UINT256); monad_simpl; reflexivity.
Qed.

Lemma initializeVoting_unfold (e : env) (g st en cc : N) (s : state) :
  initializeVoting e g st en cc s =
  if msg_sender e =? owner s then
    if votingInitialized s then Revert VotingAlreadyInitialized
    else if (en <=? st) || (st <? block_timestamp e)
    then Revert InvalidTimeRange
    else if cc =? 0 then Revert InvalidCandidate
    else Ok (tt, add_event (VotingConfigured g st en cc)
                   (set_config g st en cc s))
  else Revert (OwnableUnauthorizedAccount (msg_sender e)).
Proof.
  unfold initializeVoting, onlyOwner. destruct s; monad_simpl.
  destruct (_ =? owner0); [|reflexivity]. monad_simpl.
  destruct votingInitialized0; [reflexivity|].
  destruct (_ || _); [reflexivity|].
  destruct (cc =? 0); reflexivity.
Qed.

Lemma addRelayer_unfold (e : env) (r : N) (s : state) :
  addRelayer e r s =
  if msg_sender e =? owner s then
    if r =? 0 then Revert (Error "Invalid relayer address")
    else if isAuthorizedRelayer s r then Revert (Error "Relayer already exists")
    else Ok (tt, addRelayer_commit r s)
  else Revert (OwnableUnauthorizedAccount (msg_sender e)).
Proof.
  unfold addRelayer, onlyOwner, addRelayer_commit, isAuthorizedRelayer.
  destruct s; monad_simpl.
  destruct (_ =? owner0); [|reflexivity]. monad_simpl.
  destruct (r =? 0); cbn [negb]; monad_simpl; [reflexivity|].
  destruct (mapping_get false _ r); cbn [negb]; monad_simpl; reflexivity.
Qed.

Lemma removeRelayer_unfold (e : env) (r : N) (s : state) :
  removeRelayer e r s =
  if msg_sender e =? owner s then
    if isAuthorizedRelayer s r then Ok (tt, removeRelayer_commit r s)
    else Revert (Error "Relayer not found")
  else Revert (OwnableUnauthorizedAccount (msg_sender e)).
Proof.
  unfold removeRelayer, onlyOwner, removeRelayer_commit, isAuthorizedRelayer.
  destruct s; monad_simpl.
  destruct (_ =? owner0); [|reflexivity]. monad_simpl.
  destruct (mapping_get false _ r); monad_simpl; reflexivity.
Qed.

Lemma pauseVoting_unfold (e : env) (s : state) :
  pauseVoting e s =
  if msg_sender e =? owner s then
    if paused s then Revert EnforcedPause
    else Ok (tt, add_event (Paused (msg_sender e)) (set_paused true s))
  else Revert (OwnableUnauthorizedAccount (msg_sender e)).
Proof.
  unfold pauseVoting, onlyOwner, _pause, whenNotPaused. destruct s; monad_simpl.
  destruct (_ =? owner0); [|reflexivity]. monad_simpl.
  destruct paused0; reflexivity.
Qed.

Lemma unpauseVoting_unfold (e : env) (s : state) :
  unpauseVoting e s =
  if msg_sender e =? owner s then
    if paused s
    then Ok (tt, add_event (Unpaused (msg_sender e)) (set_paused false s))
    else Revert ExpectedPause
  else Revert (OwnableUnauthorizedAccount (msg_sender e)).
Proof.
  unfold unpauseVoting, onlyOwner, _unpause, whenPaused. destruct s; monad_simpl.
  destruct (_ =? owner0); [|reflexivity]. monad_simpl.
  destruct paused0; reflexivity.
Qed.

Lemma transferOwnership_unfold (e : env) (o : N) (s : state) :
  transferOwnership e o s =
  if msg_sender e =? owner s then
    if o =? 0 then Revert (OwnableInvalidOwner 0)
    else Ok (tt, add_event (OwnershipTransferred (owner s) o) (set_owner o s))
  else Revert (OwnableUnauthorizedAccount (msg_sender e)).
Proof.
  unfold transferOwnership, onlyOwner, _transferOwnership.
  destruct s; monad_simpl.
  destruct (_ =? owner0); [|reflexivity]. monad_simpl.
  destruct (o =? 0); reflexivity.
Qed.

Lemma renounceOwnership_unfold (e : env) (s : state) :
  renounceOwnership e s =
  if msg_sender e =? owner s
  then Ok (tt, add_event (OwnershipTransferred (owner s) 0) (set_owner 0 s))
  else Revert (OwnableUnauthorizedAccount (msg_sender e)).
Proof.
  unfold renounceOwnership, onlyOwner, _transferOwnership.
  destruct s; monad_simpl.
  destruct (_ =? owner0); reflexivity.
Qed.

Lemma constructor_unfold (o : N) :
  constructor o =
  if o =? 0 then Revert (OwnableInvalidOwner 0)
  else Ok (add_event (OwnershipTransferred 0 o) (set_owner o zero_state)).
Proof. unfold constructor. destruct (o =? 0); reflexivity. Qed.

(** ** Case analysis of one transaction *)

Section Step.

Variable v : verifier.

(** A transaction either reverts or commits one of the eight closed forms,
    under the guards that let it through. *)
Lemma dispatch_cases (P : result (unit * state) -> Prop) (e : env) (c : call)
    (s : state) :
  (forall err, P (Revert err)) ->
  (forall g st en cc,
      c = InitializeVoting g st en cc ->
      msg_sender e = owner s -> votingInitialized s = false ->
      st < en -> block_timestamp e <= st -> cc <> 0 ->
      P (Ok (tt, add_event (VotingConfigured g st en cc)
                   (set_config g st en cc s)))) ->
  (forall r,
      c = AddRelayer r ->
      msg_sender e = owner s -> r <> 0 -> isAuthorizedRelayer s r = false ->
      P (Ok (tt, addRelayer_commit r s))) ->
  (forall r,
      c = RemoveRelayer r ->
      msg_sender e = owner s -> isAuthorizedRelayer s r = true ->
      P (Ok (tt, removeRelayer_commit r s))) ->
  (forall cid nh a b c' ps d,
      c = CastVote cid nh a b c' ps d ->
      entered s = false -> paused s = false ->
      votingStartTime s <= block_timestamp e <= votingEndTime s ->
      isAuthorizedRelayer s (msg_sender e) = true ->
      cid < candidateCount s -> cid = signal0 ps ->
      isNullifierUsed s nh = false ->
      v a b c' ps d = Ok true ->
      getVoteCount s cid + 1 <= MAX_UINT256 ->
      totalVotes s + 1 <= MAX_UINT256 ->
      P (Ok (tt, castVote_commit e cid nh s))) ->
  (c = PauseVoting -> msg_sender e = owner s -> paused s = false ->
   P (Ok (tt, add_event (Paused (msg_sender e)) (set_paused true s)))) ->
  (c = UnpauseVoting -> msg_sender e = owner s -> paused s = true ->
   P (Ok (tt, add_event (Unpaused (msg_sender e)) (set_paused false s)))) ->
  (forall o,
      c = TransferOwnership o -> msg_sender e = owner s -> o <> 0 ->
      P (Ok (tt, add_event (OwnershipTransferred (owner s) o)
                   (set_owner o s)))) ->
  (c = RenounceOwnership -> msg_sender e = owner s ->
   P (Ok (tt, add_event (OwnershipTransferred (owner s) 0) (set_owner 0 s)))) ->
  P (dispatch v e c s).
Proof.
  intros Hs Hinit Hadd Hrem Hvote Hpause Hunpause Htransfer Hrenounce.
  unfold dispatch. destruct c as [g st en cc|r|r|cid nh a b c' ps d| | |o|].
  - rewrite initializeVoting_unfold.
    destruct (msg_sender e =? owner s) eqn:Ho; [|apply Hs].
    destruct (votingInitialized s) eqn:Hi; [apply Hs|].
    destruct ((en <=? st) || (st <? block_timestamp e)) eqn:Ht; [apply Hs|].
    destruct (cc =? 0) eqn:Hc; [apply Hs|].
    apply orb_false_elim in Ht as [Ht1 Ht2].
    apply Hinit; try reflexivity; try assumption.
    + now apply N.eqb_eq.
    + now apply N.leb_gt.
    + now apply N.ltb_ge.
    + now apply N.eqb_neq.
  - rewrite addRelayer_unfold.
    destruct (msg_sender e =? owner s) eqn:Ho; [|apply Hs].
    destruct (r =? 0) eqn:Hr; [apply Hs|].
    destruct (isAuthorizedRelayer s r) eqn:Ha; [apply Hs|].
    apply Hadd; try reflexivity; try assumption.
    + now apply N.eqb_eq.
    + now apply N.eqb_neq.
  - rewrite removeRelayer_unfold.
    destruct (msg_sender e =? owner s) eqn:Ho; [|apply Hs].
    destruct (isAuthorizedRelayer s r) eqn:Ha; [|apply Hs].
    apply Hrem; try reflexivity; try assumption. now apply N.eqb_eq.
  - rewrite castVote_unfold.
    destruct (entered s) eqn:He; [apply Hs|].
    destruct (paused s) eqn:Hp; [apply Hs|].
    destruct ((block_timestamp e <? votingStartTime s)
              || (votingEndTime s <? block_timestamp e)) eqn:Ht; [apply Hs|].
    destruct (isAuthorizedRelayer s (msg_sender e)) eqn:Ha; [|apply Hs].
    cbn [negb].
    destruct (candidateCount s <=? cid) eqn:Hc; [apply Hs|].
    destruct (cid =? signal0 ps) eqn:Hsig; [|apply Hs]. cbn [negb].
    destruct (isNullifierUsed s nh) eqn:Hn; [apply Hs|].
    destruct (v a b c' ps d) as [[|]|err] eqn:Hv; try apply Hs.
    destruct (getVoteCount s cid + 1 <=? MAX_UINT256) eqn:Ho1; [|apply Hs].
    destruct (totalVotes s + 1 <=? MAX_UINT256) eqn:Ho2; [|apply Hs].
    apply orb_false_elim in Ht as [Ht1 Ht2].
    apply (Hvote cid nh a b c' ps d); try reflexivity; try assumption.
    + split; [now apply N.ltb_ge | now apply N.ltb_ge].
    + now apply N.leb_gt.
    + now apply N.eqb_eq.
    + now apply N.leb_le.
    + now apply N.leb_le.
  - rewrite pauseVoting_unfold.
    destruct (msg_sender e =? owner s) eqn:Ho; [|apply Hs].
    destruct (paused s) eqn:Hp; [apply Hs|].
    apply Hpause; try reflexivity. now apply N.eqb_eq.
  - rewrite unpauseVoting_unfold.
    destruct (msg_sender e =? owner s) eqn:Ho; [|apply Hs].
    destruct (paused s) eqn:Hp; [|apply Hs].
    apply Hunpause; try reflexivity. now apply N.eqb_eq.
  - rewrite transferOwnership_unfold.
    destruct (msg_sender e =? owner s) eqn:Ho; [|apply Hs].
    destruct (o =? 0) eqn:Hz; [apply Hs|].
    apply Htransfer; try reflexivity.
    + now apply N.eqb_eq.
    + now apply N.eqb_neq.
  - rewrite renounceOwnership_unfold.
    destruct (msg_sender e =? owner s) eqn:Ho; [|apply Hs].
    apply Hrenounce; try reflexivity. now apply N.eqb_eq.
Qed.

Lemma execute_cases (P : state -> Prop) (e : env) (c : call) (s : state) :
  P s ->
  (forall g st en cc,
      c = InitializeVoting g st en cc ->
      msg_sender e = owner s -> votingInitialized s = false ->
      st < en -> block_timestamp e <= st -> cc <> 0 ->
      P (add_event (VotingConfigured g st en cc) (set_config g st en cc s))) ->
  (forall r,
      c = AddRelayer r ->
      msg_sender e = owner s -> r <> 0 -> isAuthorizedRelayer s r = false ->
      P (addRelayer_commit r s)) ->
  (forall r,
      c = RemoveRelayer r ->
      msg_sender e = owner s -> isAuthorizedRelayer s r = true ->
      P (removeRelayer_commit r s)) ->
  (forall cid nh a b c' ps d,
      c = CastVote cid nh a b c' ps d ->
      entered s = false -> paused s = false ->
      votingStartTime s <= block_timestamp e <= votingEndTime s ->
      isAuthorizedRelayer s (msg_sender e) = true ->
      cid < candidateCount s -> cid = signal0 ps ->
      isNullifierUsed s nh = false ->
      v a b c' ps d = Ok true ->
      getVoteCount s cid + 1 <= MAX_UINT256 ->
      totalVotes s + 1 <= MAX_UINT256 ->
      P (castVote_commit e cid nh s)) ->
  (c = PauseVoting -> msg_sender e = owner s -> paused s = false ->
   P (add_event (Paused (msg_sender e)) (set_paused true s))) ->
  (c = UnpauseVoting -> msg_sender e = owner s -> paused s = true ->
   P (add_event (Unpaused (msg_sender e)) (set_paused false s))) ->
  (forall o,
      c = TransferOwnership o -> msg_sender e = owner s -> o <> 0 ->
      P (add_event (OwnershipTransferred (owner s) o) (set_owner o s))) ->
  (c = RenounceOwnership -> msg_sender e = owner s ->
   P (add_event (OwnershipTransferred (owner s) 0) (set_owner 0 s))) ->
  P (execute v e c s).
Proof.
  intros Hs Hinit Hadd Hrem Hvote Hpause Hunpause Htransfer Hrenounce.
  unfold execute.
  apply (dispatch_cases
           (fun r => P match r with Ok (_, s') => s' | Revert _ => s end));
    auto.
Qed.

(** A property kept by every transaction holds along every trace. *)
Lemma run_invariant (P : state -> Prop) :
  (forall s e c, P s -> P (execute v e c s)) ->
  forall tr s, P s -> P (run v tr s).
Proof.
  intros Hstep tr. induction tr as [|[e c] tr IH]; intros s Hs; cbn.
  - exact Hs.
  - apply IH, Hstep, Hs.
Qed.

Lemma reachable_invariant (P : state -> Prop) :
  (forall o, o <> 0 ->
     P (add_event (OwnershipTransferred 0 o) (set_owner o zero_state))) ->
  (forall s e c, P s -> P (execute v e c s)) ->
  forall s, reachable v s -> P s.
Proof.
  intros Hinit Hstep s (o & s0 & tr & Hc & ->).
  apply run_invariant; [exact Hstep|].
  rewrite constructor_unfold in Hc.
  destruct (o =? 0) eqn:Ho; [discriminate|].
  injection Hc as <-. apply Hinit. now apply N.eqb_neq.
Qed.


End Step.

(** ** Mappings and sums *)

Lemma mapping_get_insert_eq {V : Type} (zero x : V) (m : gmap N V) (k : N) :
  mapping_get zero (<[k := x]> m) k = x.
Proof. unfold mapping_get. now rewrite lookup_insert_eq. Qed.

Lemma mapping_get_insert_ne {V : Type} (zero x : V) (m : gmap N V) (k j : N) :
  k <> j -> mapping_get zero (<[k := x]> m) j = mapping_get zero m j.
Proof. intros H. unfold mapping_get. now rewrite lookup_insert_ne. Qed.

Lemma mapping_get_empty {V : Type} (zero : V) (k : N) :
  mapping_get zero (∅ : gmap N V) k = zero.
Proof. unfold mapping_get. now rewrite lookup_empty. Qed.

Lemma sum_map_ext (f g : N -> N) (l : list N) :
  (forall x, x ∈ l -> f x = g x) ->
  foldr N.add 0 (map f l) = foldr N.add 0 (map g l).
Proof.
  induction l as [|y l IH]; intros H; cbn; [reflexivity|].
  rewrite (H y) by apply list_elem_of_here.
  rewrite IH; [reflexivity|].
  intros x Hx. apply H. now apply list_elem_of_further.
Qed.

Lemma sum_map_zero (f : N -> N) (l : list N) :
  (forall x, x ∈ l -> f x = 0) -> foldr N.add 0 (map f l) = 0.
Proof.
  induction l as [|y l IH]; intros H; cbn; [reflexivity|].
  rewrite (H y) by apply list_elem_of_here.
  rewrite IH; [reflexivity|].
  intros x Hx. apply H. now apply list_elem_of_further.
Qed.

(** Bumping one bucket of a duplicate-free index list bumps the sum. *)
Lemma sum_map_bump (f g : N -> N) (k : N) (l : list N) :
  NoDup l -> k ∈ l ->
  g k = f k + 1 -> (forall x, x <> k -> g x = f x) ->
  foldr N.add 0 (map g l) = foldr N.add 0 (map f l) + 1.
Proof.
  intros Hnd Hin Hk Hother.
  induction l as [|y l IH]; [now apply elem_of_nil in Hin|].
  apply NoDup_cons in Hnd as [Hy Hnd]. cbn.
  apply elem_of_cons in Hin as [<-|Hin].
  - rewrite Hk.
    rewrite (sum_map_ext g f l); [lia|].
    intros x Hx. apply Hother. intros ->. contradiction.
  - rewrite IH by assumption.
    rewrite Hother; [lia|]. intros ->. contradiction.
Qed.

Lemma elem_of_candidate_ids (n k : N) : k ∈ candidate_ids n <-> k < n.
Proof.
  unfold candidate_ids. rewrite list_elem_of_fmap. split.
  - intros (i & -> & Hi). apply elem_of_seq in Hi. lia.
  - intros H. exists (N.to_nat k). split; [lia|].
    apply elem_of_seq. lia.
Qed.

Lemma NoDup_candidate_ids (n : N) : NoDup (candidate_ids n).
Proof.
  unfold candidate_ids. apply NoDup_fmap_2; [|apply NoDup_seq].
  intros x y H. lia.
Qed.

(** ** The tally invariant *)

Lemma getVoteCount_commit_eq (e : env) (cid nh : N) (s : state) :
  getVoteCount (castVote_commit e cid nh s) cid = getVoteCount s cid + 1.
Proof. unfold getVoteCount at 1. cbn. apply mapping_get_insert_eq. Qed.

Lemma getVoteCount_commit_ne (e : env) (cid nh k : N) (s : state) :
  k <> cid -> getVoteCount (castVote_commit e cid nh s) k = getVoteCount s k.
Proof.
  intros H. unfold getVoteCount at 1. cbn.
  apply mapping_get_insert_ne. congruence.
Qed.

Lemma tally_inv_step (v : verifier) (s : state) (e : env) (c : call) :
  tally_inv s -> tally_inv (execute v e c s).
Proof.
  intros Hs. apply execute_cases; try (intros; exact Hs).
  - (* initializeVoting *)
    intros g st en cc _ _ Hi _ _ Hcc. destruct Hs as (Hsum & Hz & Hc).
    specialize (Hc Hi).
    assert (Hall : forall k, getVoteCount s k = 0).
    { intros k. apply Hz. rewrite Hc. lia. }
    assert (Htot : totalVotes s = 0).
    { rewrite <- Hsum. unfold tally_sum.
      apply sum_map_zero. intros x _. apply Hall. }
    repeat split.
    + unfold tally_sum. cbn. rewrite Htot.
      apply sum_map_zero. intros x _. apply Hall.
    + intros k _. apply Hall.
    + cbn. discriminate.
  - (* castVote *)
    intros cid nh a b c' ps d _ _ _ _ _ Hcid _ _ _ _ _.
    destruct Hs as (Hsum & Hz & Hc). repeat split.
    + unfold tally_sum.
      change (candidateCount (castVote_commit e cid nh s))
        with (candidateCount s).
      change (totalVotes (castVote_commit e cid nh s)) with (totalVotes s + 1).
      rewrite <- Hsum. unfold tally_sum.
      apply (sum_map_bump _ _ cid).
      * apply NoDup_candidate_ids.
      * now apply elem_of_candidate_ids.
      * apply getVoteCount_commit_eq.
      * intros x Hx. now apply getVoteCount_commit_ne.
    + intros k Hk. rewrite getVoteCount_commit_ne.
      * apply Hz. exact Hk.
      * cbn in Hk. lia.
    + exact Hc.
Qed.

Lemma tally_inv_deployed (o : N) :
  tally_inv (add_event (OwnershipTransferred 0 o) (set_owner o zero_state)).
Proof.
  repeat split.
Qed.

(** Only a successful [castVote] moves [totalVotes], and by one. *)
Lemma totalVotes_execute (v : verifier) (e : env) (c : call) (s : state) :
  totalVotes (execute v e c s)
  = totalVotes s
    + N.of_nat (if is_castVote c && succeeds v e c s then 1 else 0)%nat.
Proof.
  unfold execute, succeeds.
  apply (dispatch_cases v
           (fun r =>
              totalVotes match r with Ok (_, s') => s' | Revert _ => s end
              = totalVotes s
                + N.of_nat (if is_castVote c
                               && match r with
                                  | Ok _ => true
                                  | Revert _ => false
                                  end
                            then 1 else 0)%nat));
    try (intros; subst c; cbn; lia).
  intros err. rewrite andb_false_r. cbn. lia.
Qed.

(** [totalVotes] counts the successful [castVote] transactions. *)
Lemma totalVotes_run (v : verifier) (tr : trace) (s : state) :
  totalVotes (run v tr s)
  = totalVotes s + N.of_nat (successes v is_castVote tr s).
Proof.
  revert s. induction tr as [|[e c] tr IH]; intros s.
  - cbn. lia.
  - cbn [run successes]. rewrite IH, totalVotes_execute. lia.
Qed.

Lemma tally_never_decrements (v : verifier) (s : state) (e : env) (c : call) :
  (forall k, getVoteCount s k <= getVoteCount (execute v e c s) k)
  /\ totalVotes s <= totalVotes (execute v e c s).
Proof.
  apply execute_cases;
    try (intros; split; [intros k|]; apply N.le_refl).
  intros cid nh a b c' ps d _ _ _ _ _ _ _ _ _ _ _. split.
  - intros k. destruct (N.eq_dec k cid) as [->|Hk].
    + rewrite getVoteCount_commit_eq. lia.
    + rewrite getVoteCount_commit_ne by exact Hk. lia.
  - cbn. lia.
Qed.

(** ** Tally conservation *)

(** C3. From deployment, after any trace of transactions in which N
    [castVote] calls succeeded, the sum of [voteCounts[i]] over the candidate
    ids below [candidateCount] equals [totalVotes] and both equal N; and no
    transaction lowers a [voteCounts] entry or [totalVotes]. *)
Theorem tally_conservation (v : verifier) (o : address) (s0 : state)
    (tr : trace) :
  constructor o = Ok s0 ->
  tally_sum (run v tr s0) = totalVotes (run v tr s0)
  /\ totalVotes (run v tr s0) = N.of_nat (successes v is_castVote tr s0)
  /\ (forall e c k,
        getVoteCount (run v tr s0) k
        <= getVoteCount (execute v e c (run v tr s0)) k)
  /\ (forall e c,
        totalVotes (run v tr s0) <= totalVotes (execute v e c (run v tr s0))).
Proof.
  intros Hc.
  assert (Hinv : tally_inv (run v tr s0)).
  { apply (reachable_invariant v tally_inv).
    - intros o' _. apply tally_inv_deployed.
    - intros s e c. apply tally_inv_step.
    - exists o, s0, tr. split; [exact Hc|reflexivity]. }
  split; [apply Hinv|]. split.
  - rewrite totalVotes_run.
    rewrite constructor_unfold in Hc.
    destruct (o =? 0); [discriminate|]. injection Hc as <-. cbn. lia.
  - split.
    + intros e c k. apply tally_never_decrements.
    + intros e c. apply tally_never_decrements.
Qed.

Lemma tally_conservation_witness :
  constructor fixture_owner = Ok fixture_deployed
  /\ tally_sum fixture_voted = totalVotes fixture_voted
  /\ totalVotes fixture_voted
     = N.of_nat (successes (MockSemaphoreVerifier true) is_castVote
                   fixture_scenario fixture_deployed).
Proof.
  split; [reflexivity|].
  destruct (tally_conservation (MockSemaphoreVerifier true) fixture_owner
              fixture_deployed fixture_scenario eq_refl) as (H1 & H2 & _).
  split; [exact H1 | exact H2].
Defined.

Example scenario_tally :
  getAllVoteCounts fixture_voted = Ok [1; 1; 0]
  /\ totalVotes fixture_voted = 2.
Proof. split; reflexivity. Qed.

(** ** Atomicity of [castVote] *)

(** C2. A rejected [castVote] leaves the whole state as it was; a successful
    one inserts the nullifier, adds one to the chosen candidate's count, adds
    one to [totalVotes] and appends one [VoteCast] record, all four together
    and nothing else. *)
Theorem castVote_all_or_nothing (v : verifier) (e : env) (cid nh : uint256)
    (a : uint_2) (b : uint_2_2) (c : uint_2) (ps : uint_4) (d : uint256)
    (s : state) :
  (succeeds v e (CastVote cid nh a b c ps d) s = false
   /\ execute v e (CastVote cid nh a b c ps d) s = s)
  \/
  (succeeds v e (CastVote cid nh a b c ps d) s = true
   /\ isNullifierUsed s nh = false
   /\ isNullifierUsed (execute v e (CastVote cid nh a b c ps d) s) nh = true
   /\ getVoteCount (execute v e (CastVote cid nh a b c ps d) s) cid
      = getVoteCount s cid + 1
   /\ totalVotes (execute v e (CastVote cid nh a b c ps d) s)
      = totalVotes s + 1
   /\ events (execute v e (CastVote cid nh a b c ps d) s)
      = events s ++ [VoteCast cid nh (msg_sender e) (block_timestamp e)]
   /\ (forall n, n <> nh ->
         isNullifierUsed (execute v e (CastVote cid nh a b c ps d) s) n
         = isNullifierUsed s n)
   /\ (forall k, k <> cid ->
         getVoteCount (execute v e (CastVote cid nh a b c ps d) s) k
         = getVoteCount s k)
   /\ authorizedRelayers (execute v e (CastVote cid nh a b c ps d) s)
      = authorizedRelayers s
   /\ relayerAddresses (execute v e (CastVote cid nh a b c ps d) s)
      = relayerAddresses s
   /\ getVotingInfo (execute v e (CastVote cid nh a b c ps d) s)
      = (votingGroupId s, votingStartTime s, votingEndTime s,
         candidateCount s, totalVotes s + 1)
   /\ votingInitialized (execute v e (CastVote cid nh a b c ps d) s)
      = votingInitialized s
   /\ paused (execute v e (CastVote cid nh a b c ps d) s) = paused s
   /\ owner (execute v e (CastVote cid nh a b c ps d) s) = owner s).
Proof.
  unfold succeeds, execute.
  apply (dispatch_cases v
    (fun r =>
       (match r with Ok _ => true | Revert _ => false end = false
        /\ match r with Ok (_, s') => s' | Revert _ => s end = s)
       \/
       (match r with Ok _ => true | Revert _ => false end = true
        /\ isNullifierUsed s nh = false
        /\ isNullifierUsed match r with Ok (_, s') => s' | Revert _ => s end nh
           = true
        /\ getVoteCount match r with Ok (_, s') => s' | Revert _ => s end cid
           = getVoteCount s cid + 1
        /\ totalVotes match r with Ok (_, s') => s' | Revert _ => s end
           = totalVotes s + 1
        /\ events match r with Ok (_, s') => s' | Revert _ => s end
           = events s ++ [VoteCast cid nh (msg_sender e) (block_timestamp e)]
        /\ (forall n, n <> nh ->
              isNullifierUsed
                match r with Ok (_, s') => s' | Revert _ => s end n
              = isNullifierUsed s n)
        /\ (forall k, k <> cid ->
              getVoteCount match r with Ok (_, s') => s' | Revert _ => s end k
              = getVoteCount s k)
        /\ authorizedRelayers
             match r with Ok (_, s') => s' | Revert _ => s end
           = authorizedRelayers s
        /\ relayerAddresses match r with Ok (_, s') => s' | Revert _ => s end
           = relayerAddresses s
        /\ getVotingInfo match r with Ok (_, s') => s' | Revert _ => s end
           = (votingGroupId s, votingStartTime s, votingEndTime s,
              candidateCount s, totalVotes s + 1)
        /\ votingInitialized
             match r with Ok (_, s') => s' | Revert _ => s end
           = votingInitialized s
        /\ paused match r with Ok (_, s') => s' | Revert _ => s end
           = paused s
        /\ owner match r with Ok (_, s') => s' | Revert _ => s end
           = owner s)));
    try (intros; discriminate).
  - intros err. left. split; reflexivity.
  - intros cid' nh' a' b' c' ps' d' Heq _ _ _ _ _ _ Hused _ _ _.
    injection Heq as <- <- <- <- <- <- <-. right.
    split; [reflexivity|]. split; [exact Hused|].
    split; [apply mapping_get_insert_eq|].
    split; [apply getVoteCount_commit_eq|].
    split; [reflexivity|]. split; [reflexivity|].
    split.
    { intros n Hn. unfold isNullifierUsed. cbn.
      apply mapping_get_insert_ne. congruence. }
    split; [intros k Hk; now apply getVoteCount_commit_ne|].
    repeat split.
Qed.

Lemma castVote_all_or_nothing_witness :
  execute (MockSemaphoreVerifier false) (mkEnv fixture_relayer 1101)
    (fixture_vote 0 170) fixture_open = fixture_open
  /\ totalVotes
       (execute (MockSemaphoreVerifier true) (mkEnv fixture_relayer 1101)
          (fixture_vote 0 170) fixture_open) = totalVotes fixture_open + 1.
Proof.
  split.
  - destruct (castVote_all_or_nothing (MockSemaphoreVerifier false)
                (mkEnv fixture_relayer 1101) 0 170 (1, 2) ((3, 4), (5, 6))
                (7, 8) (0, 12345, 999, 1) 20 fixture_open)
      as [[_ H]|[H _]]; [exact H|discriminate H].
  - destruct (castVote_all_or_nothing (MockSemaphoreVerifier true)
                (mkEnv fixture_relayer 1101) 0 170 (1, 2) ((3, 4), (5, 6))
                (7, 8) (0, 12345, 999, 1) 20 fixture_open)
      as [[H _]|(_ & _ & _ & _ & H & _)]; [discriminate H|exact H].
Defined.

Example rejected_votes_by_cause :
  let v := MockSemaphoreVerifier true in
  let r := mkEnv fixture_relayer 1101 in
  failure v (mkEnv 99 1101) (fixture_vote 0 170) fixture_open
  = Some UnauthorizedRelayer
  /\ failure v r (fixture_vote 3 170) fixture_open = Some InvalidCandidate
  /\ failure (MockSemaphoreVerifier false) r (fixture_vote 0 170) fixture_open
     = Some InvalidProof
  /\ failure SimpleSemaphoreVerifier r
       (CastVote 0 170 (1, 2) ((3, 4), (5, 6)) (7, 8) (0, 12345, 999, 1) 33)
       fixture_open = Some (Error "Invalid merkle tree depth")
  /\ failure v r (fixture_vote 1 170) fixture_voted
     = Some NullifierAlreadyUsed.
Proof. repeat split; reflexivity. Qed.

(** ** Candidate and signal binding *)

(** C4. A [castVote] whose [candidateId] differs from [publicSignals[0]]
    never succeeds, whatever the verifier would answer: the outcome does not
    depend on the verifier at all, and a call that gets past the pause, time
    and relayer gates is rejected with [InvalidCandidate]. *)
Theorem candidate_signal_binding (v : verifier) (e : env) (cid nh : uint256)
    (a : uint_2) (b : uint_2_2) (c : uint_2) (ps : uint_4) (d : uint256)
    (s : state) :
  cid <> signal0 ps ->
  succeeds v e (CastVote cid nh a b c ps d) s = false
  /\ (forall v' : verifier,
        dispatch v' e (CastVote cid nh a b c ps d) s
        = dispatch v e (CastVote cid nh a b c ps d) s)
  /\ (entered s = false -> paused s = false ->
      votingStartTime s <= block_timestamp e <= votingEndTime s ->
      isAuthorizedRelayer s (msg_sender e) = true ->
      failure v e (CastVote cid nh a b c ps d) s = Some InvalidCandidate).
Proof.
  intros Hne. apply N.eqb_neq in Hne.
  unfold succeeds, failure, dispatch. split; [|split].
  - rewrite castVote_unfold, Hne. cbn [negb].
    destruct (entered s), (paused s),
      ((block_timestamp e <? votingStartTime s)
       || (votingEndTime s <? block_timestamp e)),
      (isAuthorizedRelayer s (msg_sender e)), (candidateCount s <=? cid);
      reflexivity.
  - intros v'. rewrite !castVote_unfold, Hne. cbn [negb].
    destruct (entered s), (paused s),
      ((block_timestamp e <? votingStartTime s)
       || (votingEndTime s <? block_timestamp e)),
      (isAuthorizedRelayer s (msg_sender e)), (candidateCount s <=? cid);
      reflexivity.
  - intros He Hp [Ht1 Ht2] Ha.
    rewrite castVote_unfold, Hne, He, Hp, Ha. cbn [negb].
    apply N.ltb_ge in Ht1, Ht2. rewrite Ht1, Ht2. cbn [orb].
    destruct (candidateCount s <=? cid); reflexivity.
Qed.

Lemma candidate_signal_binding_witness :
  1 <> signal0 (0, 12345, 999, 1)
  /\ succeeds (MockSemaphoreVerifier true) (mkEnv fixture_relayer 1101)
       (CastVote 1 12345 (1, 2) ((3, 4), (5, 6)) (7, 8) (0, 12345, 999, 1) 20)
       fixture_open = false.
Proof.
  split; [discriminate|].
  apply (candidate_signal_binding (MockSemaphoreVerifier true)
           (mkEnv fixture_relayer 1101) 1 12345 (1, 2) ((3, 4), (5, 6))
           (7, 8) (0, 12345, 999, 1) 20 fixture_open).
  discriminate.
Defined.

(** ** The round configuration *)

Lemma config_inv_step (v : verifier) (s : state) (e : env) (c : call) :
  config_inv s -> config_inv (execute v e c s).
Proof.
  intros Hs. apply execute_cases; try (intros; exact Hs).
  - intros g st en cc _ _ _ Hlt _ _. destruct Hs as (_ & _ & He).
    split; [|split].
    + intros _. exact Hlt.
    + cbn. discriminate.
    + exact He.
  - intros cid nh a b c' ps d _ _ _ _ _ _ _ _ _ _ _.
    destruct Hs as (H1 & H2 & _). split; [|split]; [exact H1|exact H2|].
    reflexivity.
Qed.

Lemma config_inv_reachable (v : verifier) (s : state) :
  reachable v s -> config_inv s.
Proof.
  apply reachable_invariant.
  - intros o _. split; [|split]; cbn; [discriminate|auto|reflexivity].
  - intros s' e c. apply config_inv_step.
Qed.

Lemma time_gate_unfold (e : env) (s : state) :
  time_gate e s =
  if (block_timestamp e <? votingStartTime s)
     || (votingEndTime s <? block_timestamp e)
  then Revert VotingNotActive
  else Ok (tt, s).
Proof.
  unfold time_gate, onlyDuringVoting. destruct s; monad_simpl.
  destruct (_ || _); reflexivity.
Qed.

(** When [castVote] goes through. *)
Lemma castVote_succeeds_iff (v : verifier) (e : env) (cid nh : N) (a : uint_2)
    (b : uint_2_2) (c : uint_2) (ps : uint_4) (d : N) (s : state) :
  succeeds v e (CastVote cid nh a b c ps d) s = true <->
  entered s = false /\ paused s = false
  /\ votingStartTime s <= block_timestamp e <= votingEndTime s
  /\ isAuthorizedRelayer s (msg_sender e) = true
  /\ cid < candidateCount s /\ cid = signal0 ps
  /\ isNullifierUsed s nh = false
  /\ v a b c ps d = Ok true
  /\ getVoteCount s cid + 1 <= MAX_UINT256
  /\ totalVotes s + 1 <= MAX_UINT256.
Proof.
  unfold succeeds, dispatch. rewrite castVote_unfold. split.
  - destruct (entered s); [discriminate|].
    destruct (paused s); [discriminate|].
    destruct ((block_timestamp e <? votingStartTime s)
              || (votingEndTime s <? block_timestamp e)) eqn:Ht;
      [discriminate|].
    destruct (isAuthorizedRelayer s (msg_sender e)); [|discriminate].
    cbn [negb].
    destruct (candidateCount s <=? cid) eqn:Hc; [discriminate|].
    destruct (cid =? signal0 ps) eqn:Hsig; [|discriminate]. cbn [negb].
    destruct (isNullifierUsed s nh); [discriminate|].
    destruct (v a b c ps d) as [[|]|err]; try discriminate.
    destruct (getVoteCount s cid + 1 <=? MAX_UINT256) eqn:H1; [|discriminate].
    destruct (totalVotes s + 1 <=? MAX_UINT256) eqn:H2; [|discriminate].
    intros _. apply orb_false_elim in Ht as [Ht1 Ht2].
    apply N.ltb_ge in Ht1, Ht2. apply N.leb_gt in Hc.
    apply N.eqb_eq in Hsig. apply N.leb_le in H1, H2.
    repeat split; assumption.
  - intros (-> & -> & [Ht1 Ht2] & -> & Hc & Hsig & -> & -> & H1 & H2).
    apply N.ltb_ge in Ht1, Ht2. rewrite Ht1, Ht2. cbn [orb negb].
    apply N.leb_gt in Hc. rewrite Hc.
    apply N.eqb_eq in Hsig. rewrite Hsig. cbn [negb].
    apply N.leb_le in H1, H2. rewrite H1, H2. reflexivity.
Qed.

Lemma execute_reverted (v : verifier) (e : env) (c : call) (s : state) :
  succeeds v e c s = false -> execute v e c s = s.
Proof.
  unfold succeeds, execute.
  destruct (dispatch v e c s) as [[u s']|err]; [discriminate|reflexivity].
Qed.

Lemma castVote_success_commit (v : verifier) (e : env) (cid nh : N)
    (a : uint_2) (b : uint_2_2) (c : uint_2) (ps : uint_4) (d : N)
    (s : state) :
  succeeds v e (CastVote cid nh a b c ps d) s = true ->
  execute v e (CastVote cid nh a b c ps d) s = castVote_commit e cid nh s.
Proof.
  intros Hs. apply castVote_succeeds_iff in Hs.
  destruct Hs as (He & Hp & [Ht1 Ht2] & Ha & Hc & Hsig & Hn & Hv & H1 & H2).
  unfold execute, dispatch. rewrite castVote_unfold, He, Hp, Ha, Hn, Hv.
  apply N.ltb_ge in Ht1, Ht2. rewrite Ht1, Ht2. cbn [orb negb].
  apply N.leb_gt in Hc. rewrite Hc.
  apply N.eqb_eq in Hsig. rewrite Hsig. cbn [negb].
  apply N.leb_le in H1, H2. rewrite H1, H2. reflexivity.
Qed.

(** ** The voting window *)

(** C9. For a configured round the window is closed at both ends: the time
    gate lets a call through at [votingStartTime] and at [votingEndTime], an
    otherwise acceptable [castVote] succeeds at both instants,
    [isVotingActive] is true there unless paused, and the gate rejects
    exactly the timestamps before the start or after the end. *)
Theorem voting_window_inclusive (v : verifier) (s : state) (sender : address) :
  reachable v s -> votingInitialized s = true ->
  time_gate (mkEnv sender (votingStartTime s)) s = Ok (tt, s)
  /\ time_gate (mkEnv sender (votingEndTime s)) s = Ok (tt, s)
  /\ (paused s = false ->
      isVotingActive (mkEnv sender (votingStartTime s)) s = true
      /\ isVotingActive (mkEnv sender (votingEndTime s)) s = true)
  /\ (forall e,
        time_gate e s = Revert VotingNotActive <->
        block_timestamp e < votingStartTime s
        \/ votingEndTime s < block_timestamp e)
  /\ (forall ts cid nh a b c ps d,
        ts = votingStartTime s \/ ts = votingEndTime s ->
        paused s = false ->
        isAuthorizedRelayer s sender = true ->
        cid < candidateCount s -> cid = signal0 ps ->
        isNullifierUsed s nh = false ->
        v a b c ps d = Ok true ->
        getVoteCount s cid + 1 <= MAX_UINT256 ->
        totalVotes s + 1 <= MAX_UINT256 ->
        succeeds v (mkEnv sender ts) (CastVote cid nh a b c ps d) s = true).
Proof.
  intros Hr Hi. destruct (config_inv_reachable v s Hr) as (Hlt & _ & He).
  specialize (Hlt Hi).
  assert (Hss : (votingStartTime s <? votingStartTime s) = false)
    by (apply N.ltb_ge; lia).
  assert (Hes : (votingEndTime s <? votingStartTime s) = false)
    by (apply N.ltb_ge; lia).
  assert (Hse : (votingEndTime s <? votingEndTime s) = false)
    by (apply N.ltb_ge; lia).
  assert (Hee : (votingEndTime s <? votingStartTime s) = false)
    by (apply N.ltb_ge; lia).
  split; [|split; [|split; [|split]]].
  - rewrite time_gate_unfold. cbn [block_timestamp]. now rewrite Hss, Hes.
  - rewrite time_gate_unfold. cbn [block_timestamp]. now rewrite Hse, Hee.
  - intros Hp. unfold isVotingActive. cbn [block_timestamp].
    rewrite Hi, Hp.
    rewrite !(proj2 (N.leb_le _ _) (N.le_refl _)).
    rewrite (proj2 (N.leb_le _ _) (N.lt_le_incl _ _ Hlt)).
    split; reflexivity.
  - intros e. rewrite time_gate_unfold.
    destruct ((block_timestamp e <? votingStartTime s)
              || (votingEndTime s <? block_timestamp e)) eqn:Ht.
    + apply orb_true_iff in Ht. rewrite !N.ltb_lt in Ht. tauto.
    + apply orb_false_elim in Ht as [Ht1 Ht2].
      apply N.ltb_ge in Ht1, Ht2. split; [discriminate|lia].
  - intros ts cid nh a b c ps d Hts Hp Ha Hc Hsig Hn Hv H1 H2.
    apply castVote_succeeds_iff. cbn [block_timestamp msg_sender].
    repeat split; try assumption; destruct Hts; lia.
Qed.

Lemma fixture_open_reachable :
  reachable (MockSemaphoreVerifier true) fixture_open.
Proof.
  exists fixture_owner, fixture_deployed, fixture_setup.
  split; reflexivity.
Defined.

Lemma voting_window_inclusive_witness :
  votingInitialized fixture_open = true
  /\ time_gate (mkEnv fixture_relayer fixture_start) fixture_open
     = Ok (tt, fixture_open)
  /\ time_gate (mkEnv fixture_relayer fixture_end) fixture_open
     = Ok (tt, fixture_open).
Proof.
  split; [reflexivity|].
  destruct (voting_window_inclusive (MockSemaphoreVerifier true) fixture_open
              fixture_relayer fixture_open_reachable eq_refl)
    as (H1 & H2 & _).
  split; [exact H1 | exact H2].
Defined.

Example boundary_votes_accepted :
  succeeds (MockSemaphoreVerifier true) (mkEnv fixture_relayer fixture_start)
    (fixture_vote 0 170) fixture_open = true
  /\ succeeds (MockSemaphoreVerifier true) (mkEnv fixture_relayer fixture_end)
       (fixture_vote 0 170) fixture_open = true
  /\ failure (MockSemaphoreVerifier true)
       (mkEnv fixture_relayer (fixture_start - 1))
       (fixture_vote 0 170) fixture_open = Some VotingNotActive
  /\ failure (MockSemaphoreVerifier true)
       (mkEnv fixture_relayer (fixture_end + 1))
       (fixture_vote 0 170) fixture_open = Some VotingNotActive.
Proof. repeat split; reflexivity. Qed.

(** ** The relayer registry *)

(** Overwriting slot [k] with the last element and popping removes exactly
    the element that was in slot [k]. *)
Lemma swap_pop_perm (arr : list N) (k : nat) (r x : N) :
  arr !! k = Some r ->
  arr !! (length arr - 1)%nat = Some x ->
  r :: take (length arr - 1)%nat (<[k := x]> arr) ≡ₚ arr.
Proof.
  destruct arr as [|y arr _] using rev_ind; [discriminate|].
  rewrite length_app. cbn [length].
  replace (length arr + 1 - 1)%nat with (length arr) by lia.
  intros Hk Hlast.
  apply lookup_snoc_Some in Hlast as [[Hlt _]|[_ ->]]; [lia|].
  apply lookup_snoc_Some in Hk as [[Hlt Hk]|[-> ->]].
  - apply list_elem_of_split_length in Hk as (l1 & l2 & -> & ->).
    rewrite <- app_assoc. cbn [app].
    rewrite insert_app_r_alt by lia.
    rewrite Nat.sub_diag. cbn [insert list_insert].
    replace (l1 ++ x :: l2 ++ [x]) with ((l1 ++ x :: l2) ++ [x])
      by (now rewrite <- app_assoc).
    rewrite take_app_length' by (rewrite !length_app; reflexivity).
    rewrite <- Permutation_middle.
    replace (l1 ++ r :: l2 ++ [x]) with ((l1 ++ r :: l2) ++ [x])
      by (now rewrite <- app_assoc).
    rewrite <- Permutation_cons_append.
    rewrite <- Permutation_middle. apply perm_swap.
  - rewrite list_insert_id
      by (apply lookup_snoc_Some; right; split; reflexivity).
    rewrite take_app_length. apply Permutation_cons_append.
Qed.

(** The loop stops at the first slot that holds [_relayer]. *)
Lemma removeRelayer_loop_found (r : N) (arr : list N) (fuel i : nat) :
  (length arr <= i + fuel)%nat ->
  (exists k, (i <= k)%nat /\ arr !! k = Some r) ->
  exists k x,
    arr !! k = Some r
    /\ arr !! (length arr - 1)%nat = Some x
    /\ removeRelayer_loop r arr i fuel
       = take (length arr - 1)%nat (<[k := x]> arr).
Proof.
  revert i. induction fuel as [|fuel IH]; intros i Hlen (k & Hik & Hk).
  - apply lookup_lt_Some in Hk. lia.
  - cbn [removeRelayer_loop].
    destruct (arr !! i) as [y|] eqn:Hi.
    + destruct (y =? r) eqn:Hy.
      * apply N.eqb_eq in Hy as ->.
        destruct (lookup_lt_is_Some_2 arr (length arr - 1)%nat) as [x Hx].
        { apply lookup_lt_Some in Hi. lia. }
        rewrite Hx. exists i, x. repeat split; assumption.
      * apply N.eqb_neq in Hy. apply IH; [lia|].
        exists k. split; [|exact Hk].
        destruct (decide (k = i)) as [->|Hne]; [congruence|lia].
    + apply lookup_ge_None in Hi. apply lookup_lt_Some in Hk. lia.
Qed.

Lemma removeRelayer_loop_perm (r : N) (arr : list N) :
  r ∈ arr ->
  r :: removeRelayer_loop r arr 0 (length arr) ≡ₚ arr.
Proof.
  intros Hin. apply list_elem_of_lookup in Hin as [k Hk].
  destruct (removeRelayer_loop_found r arr (length arr) 0) as (k' & x & H1 & H2 & ->).
  - lia.
  - exists k. split; [lia|exact Hk].
  - now apply swap_pop_perm.
Qed.

Lemma relayer_inv_step (v : verifier) (s : state) (e : env) (c : call) :
  relayer_inv s -> relayer_inv (execute v e c s).
Proof.
  intros Hs. apply execute_cases; try (intros; exact Hs).
  - (* addRelayer *)
    intros r _ _ Hr Hna. destruct Hs as (Hnd & Hiff & Hz).
    unfold relayer_inv, isAuthorizedRelayer in *. cbn.
    split; [|split].
    + apply NoDup_app. split; [exact Hnd|]. split; [|apply NoDup_singleton].
      intros x Hx Hx'. apply list_elem_of_singleton in Hx' as ->.
      apply Hiff in Hx. congruence.
    + intros a. rewrite elem_of_app, list_elem_of_singleton.
      destruct (decide (r = a)) as [->|Hne].
      * rewrite mapping_get_insert_eq. tauto.
      * rewrite mapping_get_insert_ne by exact Hne. rewrite Hiff.
        split; [intros [H|H]; [exact H|congruence]|tauto].
    + rewrite mapping_get_insert_ne by exact Hr. exact Hz.
  - (* removeRelayer *)
    intros r _ _ Ha. destruct Hs as (Hnd & Hiff & Hz).
    assert (Hin : r ∈ relayerAddresses s) by now apply Hiff.
    pose proof (removeRelayer_loop_perm r (relayerAddresses s) Hin) as Hp.
    assert (Hnd' : NoDup (r :: removeRelayer_loop r (relayerAddresses s) 0
                                 (length (relayerAddresses s)))).
    { now rewrite Hp. }
    assert (Hmem : forall a,
               a ∈ r :: removeRelayer_loop r (relayerAddresses s) 0
                          (length (relayerAddresses s))
               <-> a ∈ relayerAddresses s).
    { intros a. now rewrite Hp. }
    apply NoDup_cons in Hnd' as [Hnin Hnd'].
    unfold relayer_inv, isAuthorizedRelayer in *. cbn.
    split; [exact Hnd'|]. split.
    + intros a. destruct (decide (r = a)) as [->|Hne].
      * rewrite mapping_get_insert_eq. split; [contradiction|discriminate].
      * rewrite mapping_get_insert_ne by exact Hne. rewrite <- Hiff.
        rewrite <- Hmem. rewrite elem_of_cons.
        split; [tauto|intros [H|H]; [congruence|exact H]].
    + destruct (decide (r = 0)) as [->|Hne]; [congruence|].
      rewrite mapping_get_insert_ne by exact Hne. exact Hz.
Qed.

Lemma relayer_inv_reachable (v : verifier) (s : state) :
  reachable v s -> relayer_inv s.
Proof.
  apply reachable_invariant.
  - intros o _. split; [apply NoDup_nil_2|]. split; [|reflexivity].
    intros a. cbn. split; [intros H; now apply elem_of_nil in H|].
    unfold isAuthorizedRelayer. cbn. rewrite mapping_get_empty. discriminate.
  - intros s' e c. apply relayer_inv_step.
Qed.

(** C10. In every state the deployed contract can reach, an address occurs in
    [relayerAddresses] exactly once if and only if [authorizedRelayers] maps
    it to true (and not at all otherwise); adding a registered relayer or
    removing an absent one fails and changes nothing; the zero address is
    refused by [addRelayer] and is never a member. *)
Theorem relayer_registry_consistent (v : verifier) (s : state) :
  reachable v s ->
  (forall a, occurrences s a = 1%nat <-> isAuthorizedRelayer s a = true)
  /\ (forall a, isAuthorizedRelayer s a = false -> occurrences s a = 0%nat)
  /\ (forall e a,
        isAuthorizedRelayer s a = true ->
        succeeds v e (AddRelayer a) s = false
        /\ execute v e (AddRelayer a) s = s
        /\ (msg_sender e = owner s ->
            failure v e (AddRelayer a) s
            = Some (Error "Relayer already exists")))
  /\ (forall e a,
        isAuthorizedRelayer s a = false ->
        succeeds v e (RemoveRelayer a) s = false
        /\ execute v e (RemoveRelayer a) s = s
        /\ (msg_sender e = owner s ->
            failure v e (RemoveRelayer a) s
            = Some (Error "Relayer not found")))
  /\ (forall e,
        succeeds v e (AddRelayer 0) s = false
        /\ execute v e (AddRelayer 0) s = s
        /\ (msg_sender e = owner s ->
            failure v e (AddRelayer 0) s
            = Some (Error "Invalid relayer address")))
  /\ occurrences s 0 = 0%nat
  /\ isAuthorizedRelayer s 0 = false.
Proof.
  intros Hr. destruct (relayer_inv_reachable v s Hr) as (Hnd & Hiff & Hz).
  assert (Hnone : forall a,
             isAuthorizedRelayer s a = false -> occurrences s a = 0%nat).
  { intros a Ha. apply count_occ_not_In. rewrite <- list_elem_of_In.
    unfold getRelayers. rewrite Hiff. congruence. }
  split; [|split; [exact Hnone|split; [|split; [|split; [|split]]]]].
  - intros a. split.
    + intros Hc. apply Hiff. apply list_elem_of_In.
      apply (count_occ_In N.eq_dec). unfold occurrences, getRelayers in Hc.
      rewrite Hc. lia.
    + intros Ha. apply Hiff, list_elem_of_In in Ha.
      apply NoDup_ListNoDup in Hnd.
      now apply (proj1 (NoDup_count_occ' N.eq_dec _) Hnd).
  - intros e a Ha.
    assert (Hne : (a =? 0) = false).
    { apply N.eqb_neq. intros ->. congruence. }
    unfold succeeds, execute, failure, dispatch.
    rewrite addRelayer_unfold, Hne, Ha.
    split; [|split].
    + destruct (msg_sender e =? owner s); reflexivity.
    + destruct (msg_sender e =? owner s); reflexivity.
    + intros Ho. apply N.eqb_eq in Ho. now rewrite Ho.
  - intros e a Ha.
    unfold succeeds, execute, failure, dispatch.
    rewrite removeRelayer_unfold, Ha.
    split; [|split].
    + destruct (msg_sender e =? owner s); reflexivity.
    + destruct (msg_sender e =? owner s); reflexivity.
    + intros Ho. apply N.eqb_eq in Ho. now rewrite Ho.
  - intros e.
    unfold succeeds, execute, failure, dispatch.
    rewrite addRelayer_unfold. cbn [N.eqb].
    split; [|split].
    + destruct (msg_sender e =? owner s); reflexivity.
    + destruct (msg_sender e =? owner s); reflexivity.
    + intros Ho. apply N.eqb_eq in Ho. now rewrite Ho.
  - apply Hnone, Hz.
  - exact Hz.
Qed.

Lemma relayer_registry_consistent_witness :
  reachable (MockSemaphoreVerifier true) fixture_open
  /\ (occurrences fixture_open fixture_relayer = 1%nat
      <-> isAuthorizedRelayer fixture_open fixture_relayer = true)
  /\ occurrences fixture_open 0 = 0%nat.
Proof.
  split; [exact fixture_open_reachable|].
  destruct (relayer_registry_consistent (MockSemaphoreVerifier true)
              fixture_open fixture_open_reachable)
    as (H1 & _ & _ & _ & _ & H2 & _).
  split; [exact (H1 fixture_relayer) | exact H2].
Defined.

Example relayer_add_remove :
  let v := MockSemaphoreVerifier true in
  let o := mkEnv fixture_owner 1000 in
  let s := run v [(o, AddRelayer 8); (o, AddRelayer 9);
                  (o, RemoveRelayer 7)] fixture_open in
  getRelayers s = [9; 8]
  /\ isAuthorizedRelayer s 7 = false
  /\ failure v o (RemoveRelayer 7) s = Some (Error "Relayer not found")
  /\ failure v o (AddRelayer 8) s = Some (Error "Relayer already exists").
Proof. repeat split; reflexivity. Qed.

(** ** Nullifier uniqueness *)

Lemma nullifier_stays_used (v : verifier) (n : N) (s : state) (e : env)
    (c : call) :
  isNullifierUsed s n = true -> isNullifierUsed (execute v e c s) n = true.
Proof.
  intros Hs. apply execute_cases; try (intros; exact Hs).
  intros cid nh a b c' ps d _ _ _ _ _ _ _ _ _ _ _.
  unfold isNullifierUsed. cbn.
  destruct (decide (nh = n)) as [->|Hne].
  - apply mapping_get_insert_eq.
  - rewrite mapping_get_insert_ne by exact Hne. exact Hs.
Qed.

Lemma nullifier_used_along (v : verifier) (n : N) (tr : trace) (s : state) :
  isNullifierUsed s n = true -> isNullifierUsed (run v tr s) n = true.
Proof.
  apply (run_invariant v (fun s => isNullifierUsed s n = true)).
  intros s' e c. apply nullifier_stays_used.
Qed.

Lemma used_nullifier_rejected (v : verifier) (e : env) (cid n : N)
    (a : uint_2) (b : uint_2_2) (c : uint_2) (ps : uint_4) (d : N)
    (s : state) :
  isNullifierUsed s n = true ->
  succeeds v e (CastVote cid n a b c ps d) s = false.
Proof.
  intros Hu. destruct (succeeds v e (CastVote cid n a b c ps d) s) eqn:Hs;
    [|reflexivity].
  apply castVote_succeeds_iff in Hs. destruct Hs as (_&_&_&_&_&_&Hn&_).
  congruence.
Qed.

Lemma vote_marks_nullifier (v : verifier) (e : env) (c : call) (n : N)
    (s : state) :
  carries_nullifier n c = true -> succeeds v e c s = true ->
  isNullifierUsed s n = false /\ isNullifierUsed (execute v e c s) n = true.
Proof.
  destruct c as [| | |cid nh a b c ps d| | | |]; try discriminate.
  cbn [carries_nullifier]. intros Hn Hs. apply N.eqb_eq in Hn as ->.
  rewrite (castVote_success_commit v e cid n a b c ps d s Hs).
  apply castVote_succeeds_iff in Hs. destruct Hs as (_&_&_&_&_&_&Hn&_).
  split; [exact Hn|]. unfold isNullifierUsed. cbn.
  apply mapping_get_insert_eq.
Qed.

Lemma no_success_once_used (v : verifier) (n : N) (tr : trace) (s : state) :
  isNullifierUsed s n = true ->
  successes v (carries_nullifier n) tr s = 0%nat.
Proof.
  revert s. induction tr as [|[e c] tr IH]; intros s Hu; [reflexivity|].
  cbn [successes]. rewrite IH by now apply nullifier_stays_used.
  destruct (carries_nullifier n c) eqn:Hc; [|reflexivity].
  destruct c as [| | |cid nh a b c ps d| | | |]; try discriminate.
  cbn [carries_nullifier] in Hc. apply N.eqb_eq in Hc as ->.
  now rewrite used_nullifier_rejected.
Qed.

Lemma at_most_one_success (v : verifier) (n : N) (tr : trace) (s : state) :
  (successes v (carries_nullifier n) tr s <= 1)%nat.
Proof.
  revert s. induction tr as [|[e c] tr IH]; intros s; cbn [successes]; [lia|].
  destruct (carries_nullifier n c && succeeds v e c s) eqn:Hc.
  - apply andb_true_iff in Hc as [Hc Hs].
    destruct (vote_marks_nullifier v e c n s Hc Hs) as [_ Hu].
    rewrite (no_success_once_used v n tr _ Hu). lia.
  - specialize (IH (execute v e c s)). lia.
Qed.

Lemma votes_added_successes (v : verifier) (n : N) (tr : trace) (s : state) :
  votes_added v (carries_nullifier n) tr s
  = N.of_nat (successes v (carries_nullifier n) tr s).
Proof.
  revert s. induction tr as [|[e c] tr IH]; intros s; [reflexivity|].
  cbn [votes_added successes]. rewrite IH, totalVotes_execute.
  destruct (carries_nullifier n c) eqn:Hc.
  - destruct c; try discriminate. cbn [is_castVote andb].
    destruct (succeeds _ _ _ _); lia.
  - cbn [andb]. lia.
Qed.

Lemma fixture_voted_reachable :
  reachable (MockSemaphoreVerifier true) fixture_voted.
Proof.
  exists fixture_owner, fixture_deployed, fixture_scenario.
  split; reflexivity.
Defined.

(** Against C1 as worded. Nullifier 0xAA has been accepted; the same
    nullifier sent again after the window has closed is turned away by the
    time gate, which runs first, with [VotingNotActive]. *)
Lemma reused_nullifier_after_close :
  isNullifierUsed fixture_voted 170 = true
  /\ failure (MockSemaphoreVerifier true)
       (mkEnv fixture_relayer (fixture_end + 1)) (fixture_vote 0 170)
       fixture_voted = Some VotingNotActive
  /\ ~ reuse_always_reports_NullifierAlreadyUsed (MockSemaphoreVerifier true).
Proof.
  split; [reflexivity|]. split; [reflexivity|].
  intros H.
  specialize (H fixture_voted (mkEnv fixture_relayer (fixture_end + 1))
                0 170 (1, 2) ((3, 4), (5, 6)) (7, 8) (0, 12345, 999, 1) 20
                fixture_voted_reachable eq_refl).
  discriminate H.
Qed.

(** C1 (amended). For every nullifier [n] and every trace from every state:
    at most one [castVote] carrying [n] succeeds and those calls add exactly
    that number (zero or one) to [totalVotes]; a success inserts [n]; once
    inserted [n] stays in the used set through every transaction and no
    later call carrying it succeeds; such a call fails with
    [NullifierAlreadyUsed] when it gets past the reentrancy, pause, time,
    relayer and candidate checks, which come first. *)
Theorem nullifier_uniqueness (v : verifier) (n : uint256) (tr : trace)
    (s : state) :
  (successes v (carries_nullifier n) tr s <= 1)%nat
  /\ votes_added v (carries_nullifier n) tr s
     = N.of_nat (successes v (carries_nullifier n) tr s)
  /\ (forall e c,
        carries_nullifier n c = true -> succeeds v e c s = true ->
        isNullifierUsed s n = false
        /\ isNullifierUsed (execute v e c s) n = true
        /\ totalVotes (execute v e c s) = totalVotes s + 1)
  /\ (isNullifierUsed s n = true ->
      isNullifierUsed (run v tr s) n = true
      /\ successes v (carries_nullifier n) tr s = 0%nat
      /\ (forall e c, isNullifierUsed (execute v e c s) n = true)
      /\ (forall e cid a b c ps d,
            succeeds v e (CastVote cid n a b c ps d) s = false
            /\ execute v e (CastVote cid n a b c ps d) s = s
            /\ (entered s = false -> paused s = false ->
                votingStartTime s <= block_timestamp e <= votingEndTime s ->
                isAuthorizedRelayer s (msg_sender e) = true ->
                cid < candidateCount s -> cid = signal0 ps ->
                failure v e (CastVote cid n a b c ps d) s
                = Some NullifierAlreadyUsed))).
Proof.
  split; [apply at_most_one_success|].
  split; [apply votes_added_successes|]. split.
  - intros e c Hc Hs.
    destruct (vote_marks_nullifier v e c n s Hc Hs) as [H1 H2].
    split; [exact H1|]. split; [exact H2|].
    rewrite totalVotes_execute, Hs.
    destruct c; try discriminate. cbn. lia.
  - intros Hu. split; [now apply nullifier_used_along|].
    split; [now apply no_success_once_used|].
    split; [intros e c; now apply nullifier_stays_used|].
    intros e cid a b c ps d.
    pose proof (used_nullifier_rejected v e cid n a b c ps d s Hu) as Hf.
    split; [exact Hf|]. split.
    + now apply execute_reverted.
    + intros He Hp [Ht1 Ht2] Ha Hc Hsig.
      unfold failure, dispatch. rewrite castVote_unfold, He, Hp, Ha, Hu.
      apply N.ltb_ge in Ht1, Ht2. rewrite Ht1, Ht2.
      apply N.leb_gt in Hc. rewrite Hc.
      apply N.eqb_eq in Hsig. rewrite Hsig. reflexivity.
Qed.

Lemma nullifier_uniqueness_witness :
  isNullifierUsed fixture_voted 170 = true
  /\ successes (MockSemaphoreVerifier true) (carries_nullifier 170)
       fixture_scenario fixture_deployed = 1%nat
  /\ failure (MockSemaphoreVerifier true) (mkEnv fixture_relayer 1102)
       (fixture_vote 0 170) fixture_voted = Some NullifierAlreadyUsed.
Proof.
  split; [reflexivity|]. split; [reflexivity|].
  destruct (nullifier_uniqueness (MockSemaphoreVerifier true) 170 []
              fixture_voted) as (_ & _ & _ & H).
  destruct (H eq_refl) as (_ & _ & _ & H').
  destruct (H' (mkEnv fixture_relayer 1102) 0 (1, 2) ((3, 4), (5, 6)) (7, 8)
              (0, 12345, 999, 1) 20) as (_ & _ & H'').
  apply H''; try reflexivity.
  - split; discriminate.
Defined.

(** ** Errors of the entry gates *)

Lemma fixture_deployed_reachable :
  reachable (MockSemaphoreVerifier true) fixture_deployed.
Proof. exists fixture_owner, fixture_deployed, []. split; reflexivity. Defined.

(** Against C5 as worded. Before the start, after the end and without any
    configuration the caller gets the same [VotingNotActive]. *)
Lemma pending_closed_unconfigured_share_error :
  failure (MockSemaphoreVerifier true) (mkEnv fixture_relayer 1000)
    (fixture_vote 0 170) fixture_open = Some VotingNotActive
  /\ failure (MockSemaphoreVerifier true) (mkEnv fixture_relayer 5000)
       (fixture_vote 0 170) fixture_open = Some VotingNotActive
  /\ failure (MockSemaphoreVerifier true) (mkEnv fixture_relayer 1101)
       (fixture_vote 0 170) fixture_deployed = Some VotingNotActive
  /\ ~ gate_errors_distinguish (MockSemaphoreVerifier true).
Proof.
  split; [reflexivity|]. split; [reflexivity|]. split; [reflexivity|].
  intros H.
  assert (Hk : RoundPending = RoundClosed).
  { apply (H fixture_open fixture_open (mkEnv fixture_relayer 1000)
             (mkEnv fixture_relayer 5000) (fixture_vote 0 170)
             (fixture_vote 0 170) RoundPending RoundClosed VotingNotActive);
      try reflexivity; try exact fixture_open_reachable.
    - split; reflexivity.
    - intros [] Hk; cbn in Hk; try reflexivity; try discriminate Hk.
      destruct Hk as [_ Hk]. discriminate Hk.
    - split; reflexivity.
    - intros [] Hk; cbn in Hk; try reflexivity; try discriminate Hk.
      destruct Hk as [_ Hk]. discriminate Hk. }
  discriminate Hk.
Qed.

(** C5 (amended). In every reachable state [castVote] is rejected with
    [EnforcedPause] when the contract is paused and, when it is not, with the
    one error [VotingNotActive] both before [votingStartTime] and after
    [votingEndTime]. An unconfigured round has no error of its own: no vote
    succeeds, and its zero window gives [VotingNotActive] at every positive
    timestamp. *)
Theorem gate_errors (v : verifier) (s : state) (e : env) (cid nh : uint256)
    (a : uint_2) (b : uint_2_2) (c : uint_2) (ps : uint_4) (d : uint256) :
  reachable v s ->
  (paused s = true ->
   failure v e (CastVote cid nh a b c ps d) s = Some EnforcedPause)
  /\ (paused s = false ->
      block_timestamp e < votingStartTime s
      \/ votingEndTime s < block_timestamp e ->
      failure v e (CastVote cid nh a b c ps d) s = Some VotingNotActive)
  /\ (votingInitialized s = false ->
      succeeds v e (CastVote cid nh a b c ps d) s = false
      /\ (paused s = false -> 0 < block_timestamp e ->
          failure v e (CastVote cid nh a b c ps d) s = Some VotingNotActive))
  /\ EnforcedPause <> VotingNotActive.
Proof.
  intros Hr. destruct (config_inv_reachable v s Hr) as (_ & Hu & He).
  assert (Hgate : paused s = false ->
                  block_timestamp e < votingStartTime s
                  \/ votingEndTime s < block_timestamp e ->
                  failure v e (CastVote cid nh a b c ps d) s
                  = Some VotingNotActive).
  { intros Hp Ht. unfold failure, dispatch.
    rewrite castVote_unfold, He, Hp.
    assert (Ht' : (block_timestamp e <? votingStartTime s)
                  || (votingEndTime s <? block_timestamp e) = true).
    { apply orb_true_iff. rewrite !N.ltb_lt. exact Ht. }
    now rewrite Ht'. }
  split; [|split; [exact Hgate|split; [|discriminate]]].
  - intros Hp. unfold failure, dispatch.
    now rewrite castVote_unfold, He, Hp.
  - intros Hi. destruct (Hu Hi) as (Hst & Hen & Hcc). split.
    + destruct (succeeds v e (CastVote cid nh a b c ps d) s) eqn:Hs;
        [|reflexivity].
      apply castVote_succeeds_iff in Hs.
      destruct Hs as (_ & _ & _ & _ & Hlt & _). lia.
    + intros Hp Hts. apply Hgate; [exact Hp|]. right. lia.
Qed.

Lemma gate_errors_witness :
  reachable (MockSemaphoreVerifier true) fixture_open
  /\ failure (MockSemaphoreVerifier true) (mkEnv fixture_relayer 1000)
       (fixture_vote 0 170) fixture_open = Some VotingNotActive.
Proof.
  split; [exact fixture_open_reachable|].
  destruct (gate_errors (MockSemaphoreVerifier true) fixture_open
              (mkEnv fixture_relayer 1000) 0 170 (1, 2) ((3, 4), (5, 6))
              (7, 8) (0, 12345, 999, 1) 20 fixture_open_reachable)
    as (_ & H & _).
  apply H; [reflexivity|]. left. reflexivity.
Defined.

Example paused_vote_rejected :
  let v := MockSemaphoreVerifier true in
  let s := execute v (mkEnv fixture_owner 1101) PauseVoting fixture_open in
  failure v (mkEnv fixture_relayer 1101) (fixture_vote 0 170) s
  = Some EnforcedPause
  /\ succeeds v (mkEnv fixture_relayer 1102) (fixture_vote 0 170)
       (execute v (mkEnv fixture_owner 1102) UnpauseVoting s) = true.
Proof. split; reflexivity. Qed.

(** ** Single configuration *)

Lemma configured_forever (v : verifier) (cfg : N * N * N * N) (tr : trace)
    (s : state) :
  votingInitialized s = true -> round_config s = cfg ->
  votingInitialized (run v tr s) = true /\ round_config (run v tr s) = cfg.
Proof.
  intros Hi Hc.
  apply (run_invariant v
           (fun s => votingInitialized s = true /\ round_config s = cfg));
    [|split; assumption].
  clear. intros s e c Hs. apply execute_cases; try (intros; exact Hs).
  intros g st en cc _ _ Hi _ _ _. destruct Hs as [Hi' _]. congruence.
Qed.

Lemma reinitialize_rejected (v : verifier) (e : env) (g st en cc : N)
    (s : state) :
  votingInitialized s = true ->
  succeeds v e (InitializeVoting g st en cc) s = false
  /\ execute v e (InitializeVoting g st en cc) s = s
  /\ (msg_sender e = owner s ->
      failure v e (InitializeVoting g st en cc) s
      = Some VotingAlreadyInitialized)
  /\ (msg_sender e <> owner s ->
      failure v e (InitializeVoting g st en cc) s
      = Some (OwnableUnauthorizedAccount (msg_sender e))).
Proof.
  intros Hi. unfold succeeds, execute, failure, dispatch.
  rewrite initializeVoting_unfold, Hi.
  destruct (msg_sender e =? owner s) eqn:Ho.
  - apply N.eqb_eq in Ho. repeat split; try reflexivity. congruence.
  - apply N.eqb_neq in Ho. repeat split; try reflexivity. congruence.
Qed.

(** Against C6 as worded. A second [initializeVoting] sent by an account
    that is not the owner is stopped by [onlyOwner], which runs before the
    body. *)
Lemma reinitialize_by_stranger :
  votingInitialized fixture_open = true
  /\ failure (MockSemaphoreVerifier true) (mkEnv 2 1000)
       (InitializeVoting 1 2100 5700 3) fixture_open
     = Some (OwnableUnauthorizedAccount 2)
  /\ ~ reinitialize_always_reports_AlreadyInitialized
         (MockSemaphoreVerifier true).
Proof.
  split; [reflexivity|]. split; [reflexivity|].
  intros H.
  specialize (H fixture_open (mkEnv 2 1000) 1 2100 5700 3
                fixture_open_reachable eq_refl).
  discriminate H.
Qed.

(** C6 (amended). Once an [initializeVoting] call has succeeded, then after
    any further transactions the stored configuration is still the one that
    call set, and every later [initializeVoting] fails and changes nothing:
    with [VotingAlreadyInitialized] when the owner sends it, with
    [OwnableUnauthorizedAccount] otherwise. *)
Theorem single_configuration (v : verifier) (e0 : env)
    (g st en cc : uint256) (s : state) (tr : trace) :
  succeeds v e0 (InitializeVoting g st en cc) s = true ->
  round_config (run v tr (execute v e0 (InitializeVoting g st en cc) s))
  = (g, st, en, cc)
  /\ votingInitialized
       (run v tr (execute v e0 (InitializeVoting g st en cc) s)) = true
  /\ (forall e g' st' en' cc',
        succeeds v e (InitializeVoting g' st' en' cc')
          (run v tr (execute v e0 (InitializeVoting g st en cc) s)) = false
        /\ execute v e (InitializeVoting g' st' en' cc')
             (run v tr (execute v e0 (InitializeVoting g st en cc) s))
           = run v tr (execute v e0 (InitializeVoting g st en cc) s)
        /\ (msg_sender e
            = owner (run v tr (execute v e0 (InitializeVoting g st en cc) s))
            -> failure v e (InitializeVoting g' st' en' cc')
                 (run v tr (execute v e0 (InitializeVoting g st en cc) s))
               = Some VotingAlreadyInitialized)
        /\ (msg_sender e
            <> owner (run v tr (execute v e0 (InitializeVoting g st en cc) s))
            -> failure v e (InitializeVoting g' st' en' cc')
                 (run v tr (execute v e0 (InitializeVoting g st en cc) s))
               = Some (OwnableUnauthorizedAccount (msg_sender e)))).
Proof.
  intros Hs.
  assert (H1 : votingInitialized
                 (execute v e0 (InitializeVoting g st en cc) s) = true
               /\ round_config (execute v e0 (InitializeVoting g st en cc) s)
                  = (g, st, en, cc)).
  { revert Hs. unfold succeeds, execute, dispatch.
    rewrite initializeVoting_unfold.
    destruct (msg_sender e0 =? owner s); [|discriminate].
    destruct (votingInitialized s); [discriminate|].
    destruct ((en <=? st) || (st <? block_timestamp e0)); [discriminate|].
    destruct (cc =? 0); [discriminate|].
    intros _. split; reflexivity. }
  destruct H1 as [Hi Hc].
  destruct (configured_forever v (g, st, en, cc) tr _ Hi Hc) as [Hi' Hc'].
  split; [exact Hc'|]. split; [exact Hi'|].
  intros e g' st' en' cc'. now apply reinitialize_rejected.
Qed.

Lemma single_configuration_witness :
  succeeds (MockSemaphoreVerifier true) (mkEnv fixture_owner 1000)
    (InitializeVoting 1 fixture_start fixture_end 3) fixture_deployed = true
  /\ round_config fixture_voted = (1, fixture_start, fixture_end, 3)
  /\ failure (MockSemaphoreVerifier true) (mkEnv fixture_owner 1200)
       (InitializeVoting 1 2100 5700 3) fixture_voted
     = Some VotingAlreadyInitialized.
Proof.
  split; [reflexivity|].
  destruct (single_configuration (MockSemaphoreVerifier true)
              (mkEnv fixture_owner 1000) 1 fixture_start fixture_end 3
              fixture_deployed (tl fixture_scenario) eq_refl)
    as (H1 & _ & H2).
  split; [exact H1|].
  destruct (H2 (mkEnv fixture_owner 1200) 1 2100 5700 3) as (_ & _ & H3 & _).
  apply H3. reflexivity.
Defined.

(** ** First configuration *)

(** Against C7 as worded. A round that starts at the very timestamp of the
    configuring block is accepted. *)
Lemma initialize_at_current_time :
  succeeds (MockSemaphoreVerifier true) (mkEnv fixture_owner 1000)
    (InitializeVoting 1 1000 2000 3) fixture_deployed = true
  /\ ~ initialize_needs_strictly_future_times (MockSemaphoreVerifier true).
Proof.
  split; [reflexivity|].
  intros H.
  destruct (H fixture_deployed (mkEnv fixture_owner 1000) 1 1000 2000 3
              eq_refl eq_refl) as [H1 _].
  destruct (H1 eq_refl) as (_ & Hlt & _).
  discriminate Hlt.
Qed.

(** C7 (amended). A first [initializeVoting] call by the owner succeeds
    exactly when [_startTime < _endTime], [_startTime] is not before the
    block's timestamp (so [_endTime] is strictly after it) and
    [_candidateCount > 0], and then stores the configuration; a violated time
    condition is rejected with [InvalidTimeRange]; with the times in order a
    zero candidate count is rejected with [InvalidCandidate]; a rejected call
    stores nothing. *)
Theorem first_configuration (v : verifier) (s : state) (e : env)
    (g st en cc : uint256) :
  msg_sender e = owner s -> votingInitialized s = false ->
  (succeeds v e (InitializeVoting g st en cc) s = true <->
   st < en /\ block_timestamp e <= st /\ 0 < cc)
  /\ (succeeds v e (InitializeVoting g st en cc) s = true ->
      block_timestamp e < en
      /\ votingInitialized (execute v e (InitializeVoting g st en cc) s) = true
      /\ round_config (execute v e (InitializeVoting g st en cc) s)
         = (g, st, en, cc))
  /\ (en <= st \/ st < block_timestamp e ->
      failure v e (InitializeVoting g st en cc) s = Some InvalidTimeRange
      /\ execute v e (InitializeVoting g st en cc) s = s)
  /\ (st < en -> block_timestamp e <= st -> cc = 0 ->
      failure v e (InitializeVoting g st en cc) s = Some InvalidCandidate
      /\ execute v e (InitializeVoting g st en cc) s = s).
Proof.
  intros Ho Hi. apply N.eqb_eq in Ho.
  unfold succeeds, execute, failure, dispatch.
  rewrite initializeVoting_unfold, Ho, Hi.
  destruct ((en <=? st) || (st <? block_timestamp e)) eqn:Ht.
  - apply orb_true_iff in Ht. rewrite N.leb_le, N.ltb_lt in Ht.
    split; [split; [discriminate|lia]|].
    split; [discriminate|]. split; [split; reflexivity|]. lia.
  - apply orb_false_elim in Ht as [Ht1 Ht2].
    apply N.leb_gt in Ht1. apply N.ltb_ge in Ht2.
    destruct (cc =? 0) eqn:Hc.
    + apply N.eqb_eq in Hc.
      split; [split; [discriminate|lia]|].
      split; [discriminate|]. split; [lia|]. split; reflexivity.
    + apply N.eqb_neq in Hc.
      split; [split; [intros _; lia|reflexivity]|].
      split; [intros _; split; [lia|split; reflexivity]|].
      split; [lia|]. intros _ _ Hz. contradiction.
Qed.

Lemma first_configuration_witness :
  msg_sender (mkEnv fixture_owner 1000) = owner fixture_deployed
  /\ votingInitialized fixture_deployed = false
  /\ round_config
       (execute (MockSemaphoreVerifier true) (mkEnv fixture_owner 1000)
          (InitializeVoting 1 1000 2000 3) fixture_deployed)
     = (1, 1000, 2000, 3).
Proof.
  split; [reflexivity|]. split; [reflexivity|].
  destruct (first_configuration (MockSemaphoreVerifier true) fixture_deployed
              (mkEnv fixture_owner 1000) 1 1000 2000 3 eq_refl eq_refl)
    as (_ & H & _).
  apply H. reflexivity.
Defined.

Example initialize_rejections :
  let v := MockSemaphoreVerifier true in
  let o := mkEnv fixture_owner 1000 in
  failure v o (InitializeVoting 1 4600 1000 3) fixture_deployed
  = Some InvalidTimeRange
  /\ failure v o (InitializeVoting 1 900 4600 3) fixture_deployed
     = Some InvalidTimeRange
  /\ failure v o (InitializeVoting 1 1100 4700 0) fixture_deployed
     = Some InvalidCandidate
  /\ failure v o (InitializeVoting 1 900 4600 0) fixture_deployed
     = Some InvalidTimeRange.
Proof. repeat split; reflexivity. Qed.

(** ** Relayer selection *)

Lemma round_half_even_upper (y : Q) :
  (inject_Z (round_half_even y) <= y + (1 # 2))%Q.
Proof.
  unfold round_half_even.
  pose proof (Qfloor_le y) as Hf.
  destruct (Qcompare_spec (y - inject_Z (Qfloor y)) (1 # 2)) as [H|H|H].
  - destruct (Z.even (Qfloor y)).
    + lra.
    + rewrite inject_Z_plus. change (inject_Z 1) with 1%Q. lra.
  - lra.
  - rewrite inject_Z_plus. change (inject_Z 1) with 1%Q. lra.
Qed.

Lemma round_half_even_nonneg (y : Q) :
  (0 <= y)%Q -> (0 <= round_half_even y)%Z.
Proof.
  intros Hy. unfold round_half_even.
  assert (0 <= Qfloor y)%Z.
  { change 0%Z with (Qfloor (inject_Z 0)). now apply Qfloor_resp_le. }
  destruct (_ ?= _)%Q; [destruct (Z.even _)| |]; lia.
Qed.

Lemma double_ulp_spec (X : Q) :
  (0 < double_ulp X)%Z
  /\ (double_ulp X = 1%Z \/ (inject_Z (double_ulp X * 2 ^ 52) <= X)%Q).
Proof.
  unfold double_ulp. destruct (Qfloor X <? 2 ^ 53)%Z eqn:Ht.
  - split; [lia|now left].
  - apply Z.ltb_ge in Ht.
    assert (Hlog : (53 <= Z.log2 (Qfloor X))%Z).
    { rewrite <- (Z.log2_pow2 53) by lia. now apply Z.log2_le_mono. }
    split; [apply Z.pow_pos_nonneg; lia|]. right.
    apply Qle_trans with (y := inject_Z (Qfloor X)); [|apply Qfloor_le].
    rewrite <- Zle_Qle. rewrite <- Z.pow_add_r by lia.
    replace (Z.log2 (Qfloor X) - 52 + 52)%Z with (Z.log2 (Qfloor X)) by lia.
    apply Z.log2_spec. lia.
Qed.

(** A product that stays a relative 2^-53 below the integer [n] is rounded
    to a double below [n]. *)
Lemma round_double_below (x : Q) (n : Z) :
  (1 <= n)%Z -> (0 <= x)%Q ->
  (x <= inject_Z n * (1 - (1 # 2 ^ 53)))%Q ->
  (0 <= round_double x)%Q /\ (round_double x < inject_Z n)%Q.
Proof.
  intros Hn H0 Hx. unfold round_double.
  assert (HS : (inject_Z (2 ^ 1074)
                == inject_Z (2 ^ 1021) * inject_Z (2 ^ 53))%Q)
    by reflexivity.
  assert (Hc : (1 <= inject_Z (2 ^ 1021))%Q) by discriminate.
  assert (H52 : (inject_Z (2 ^ 52) == 4503599627370496)%Q) by reflexivity.
  assert (H53 : (inject_Z (2 ^ 53) == 9007199254740992)%Q) by reflexivity.
  set (S := inject_Z (2 ^ 1074)) in *.
  set (c := inject_Z (2 ^ 1021)) in *.
  set (X := (x * S)%Q).
  destruct (double_ulp_spec X) as [Hupos Hu].
  set (u := double_ulp X) in *.
  assert (HN : (1 <= inject_Z n)%Q).
  { change 1%Q with (inject_Z 1). now rewrite <- Zle_Qle. }
  assert (HU : (0 < inject_Z u)%Q).
  { change 0%Q with (inject_Z 0). now rewrite <- Zlt_Qlt. }
  assert (HX0 : (0 <= X)%Q) by (unfold X; nra).
  assert (HXn : (X <= inject_Z n * S - inject_Z n * c)%Q).
  { unfold X. rewrite HS, H53.
    assert ((x * (c * 9007199254740992)
             <= inject_Z n * (1 - (1 # 2 ^ 53)) * (c * 9007199254740992))%Q)
      by (apply Qmult_le_compat_r; [exact Hx|lra]).
    change (1 # 2 ^ 53)%Q with (1 # 9007199254740992)%Q in H. lra. }
  assert (Hkey : (inject_Z u < 2 * (inject_Z n * S - X))%Q).
  { destruct Hu as [Hu|Hu].
    - rewrite Hu. change (inject_Z 1) with 1%Q. nra.
    - rewrite inject_Z_mult, H52 in Hu.
      rewrite HS, H53 in HXn. rewrite HS, H53. nra. }
  set (Y := (X / inject_Z u)%Q).
  assert (HY : (Y * inject_Z u == X)%Q).
  { unfold Y. field. lra. }
  assert (HY0 : (0 <= Y)%Q).
  { unfold Y. apply Qle_shift_div_l; [exact HU|lra]. }
  pose proof (round_half_even_upper Y) as Hup.
  pose proof (round_half_even_nonneg Y HY0) as Hlo.
  rewrite Zle_Qle in Hlo. change (inject_Z 0) with 0%Q in Hlo.
  rewrite inject_Z_mult.
  set (R := inject_Z (round_half_even Y)) in *.
  assert (HSpos : (0 < S)%Q) by (rewrite HS; nra).
  split.
  - apply Qle_shift_div_l; [exact HSpos|]. nra.
  - apply Qlt_shift_div_r; [exact HSpos|]. nra.
Qed.

(** The largest double below 1 is [1 - 2^-53]. *)
Lemma unit_double_bounds (x : Q) :
  unit_double x -> (0 <= x)%Q /\ (x <= 1 - (1 # 2 ^ 53))%Q.
Proof.
  intros (m & k & [Hm0 Hm] & [Hk0 Hk] & Hlt & Hx).
  assert (HP : (0 < 2 ^ k)%Z) by (apply Z.pow_pos_nonneg; lia).
  set (P := (2 ^ k)%Z) in *.
  assert (HPq : (0 < inject_Z P)%Q).
  { change 0%Q with (inject_Z 0). now rewrite <- Zlt_Qlt. }
  assert (Hm0q : (0 <= inject_Z m)%Q).
  { change 0%Q with (inject_Z 0). now rewrite <- Zle_Qle. }
  assert (Hz : (m * 2 ^ 53 <= (2 ^ 53 - 1) * P)%Z) by lia.
  rewrite Zle_Qle, !inject_Z_mult in Hz.
  assert (H53 : (inject_Z (2 ^ 53) == 9007199254740992)%Q) by reflexivity.
  assert (H53' : (inject_Z (2 ^ 53 - 1) == 9007199254740991)%Q) by reflexivity.
  rewrite H53, H53' in Hz.
  rewrite Hx. split.
  - apply Qle_shift_div_l; [exact HPq|]. lra.
  - apply Qle_shift_div_r; [exact HPq|].
    change (1 # 2 ^ 53)%Q with (1 # 9007199254740992)%Q. lra.
Qed.

Lemma randomIndex_range (random : Q) (len : nat) :
  unit_double random -> (0 < len)%nat ->
  (0 <= randomIndex random len < Z.of_nat len)%Z.
Proof.
  intros Hd Hlen. destruct (unit_double_bounds random Hd) as [H0 H1].
  unfold randomIndex.
  assert (Hn : (1 <= inject_Z (Z.of_nat len))%Q).
  { change 1%Q with (inject_Z 1). rewrite <- Zle_Qle. lia. }
  destruct (round_double_below (random * inject_Z (Z.of_nat len))
              (Z.of_nat len)) as [Hlo Hhi].
  - lia.
  - nra.
  - rewrite (Qmult_comm (inject_Z (Z.of_nat len))).
    apply Qmult_le_compat_r; [exact H1|lra].
  - split.
    + change 0%Z with (Qfloor (inject_Z 0)). now apply Qfloor_resp_le.
    + rewrite Zlt_Qlt. eapply Qle_lt_trans; [apply Qfloor_le|exact Hhi].
Qed.

Lemma js_index_in_range {A : Type} (arr : list A) (i : Z) :
  (0 <= i < Z.of_nat (length arr))%Z ->
  exists x, js_index arr i = Some x /\ x ∈ arr.
Proof.
  intros [Hlo Hhi]. unfold js_index.
  destruct (i <? 0)%Z eqn:Hneg; [apply Z.ltb_lt in Hneg; lia|].
  destruct (lookup_lt_is_Some_2 arr (Z.to_nat i)) as [x Hx]; [lia|].
  exists x. split; [exact Hx|]. apply list_elem_of_lookup. now exists (Z.to_nat i).
Qed.

Lemma unit_double_zero : unit_double 0.
Proof.
  exists 0%Z, 0%Z. split; [lia|]. split; [lia|]. split; [lia|]. reflexivity.
Qed.

Lemma unit_double_half : unit_double (1 # 2).
Proof.
  exists 1%Z, 1%Z. split; [lia|]. split; [lia|]. split; [lia|]. reflexivity.
Qed.

(** The registry can be read and is not empty, or the read fails, or the
    server's wallets are not registered: selection then leaves the
    registry. *)
Lemma selection_outside_registry :
  reachable (MockSemaphoreVerifier true) fixture_open
  /\ getRelayers fixture_open = [fixture_relayer]
  /\ getRandomRelayer
       (contract_getRelayers (Some "could not detect network"%string)
          fixture_open) 0
     = Thrown "No authorized relayers found"
  /\ selectRandomRelayer [99] 0 = Returned (Some 99)
  /\ isAuthorizedRelayer fixture_open 99 = false
  /\ ~ selection_returns_registry_member (MockSemaphoreVerifier true).
Proof.
  split; [exact fixture_open_reachable|]. split; [reflexivity|].
  split; [reflexivity|]. split; [reflexivity|]. split; [reflexivity|].
  intros H.
  destruct (H fixture_open [99] (Some "could not detect network"%string) 0%Q
              fixture_open_reachable unit_double_zero ltac:(discriminate))
    as [_ (r & Hr & _)].
  discriminate Hr.
Qed.

(** C8. For a draw of [Math.random()], relayer selection returns a member of
    the array it selects from whenever that array is not empty, and throws
    its own "no relayer" error, returning nothing, when it is empty.
    [selectRandomRelayer] selects from the server's [relayerWallets],
    whatever the registry holds. [getRandomRelayer] selects from the
    registry [getRelayers] returns, whose members are authorized relayers,
    when the registry can be read; it throws "No authorized relayers found"
    exactly when the registry is empty or the read fails. *)
Theorem select_relayer_member (W : Type) (relayerWallets : list W)
    (v : verifier) (s : state) (failure : option string) (random : Q) :
  unit_double random -> reachable v s ->
  (Z.of_nat (length relayerWallets) < 2 ^ 32)%Z ->
  (Z.of_nat (length (getRelayers s)) < 2 ^ 32)%Z ->
  (relayerWallets <> [] ->
   exists w, selectRandomRelayer relayerWallets random = Returned (Some w)
             /\ w ∈ relayerWallets)
  /\ (relayerWallets = [] ->
      selectRandomRelayer relayerWallets random
      = Thrown "No relayer wallets available")
  /\ (getRelayers s <> [] ->
      exists r, getRandomRelayer (contract_getRelayers None s) random
                = Returned (Some r)
                /\ r ∈ getRelayers s
                /\ isAuthorizedRelayer s r = true)
  /\ (getRandomRelayer (contract_getRelayers failure s) random
      = Thrown "No authorized relayers found"
      <-> getRelayers s = [] \/ failure <> None).
Proof.
  intros Hd Hr _ _.
  assert (Hsel : getRelayers s <> [] ->
            exists r, getRandomRelayer (contract_getRelayers None s) random
                      = Returned (Some r)
                      /\ r ∈ getRelayers s
                      /\ isAuthorizedRelayer s r = true).
  { intros Hne. unfold getRandomRelayer, contract_getRelayers,
      getCurrentRelayers.
    destruct (getRelayers s) as [|r0 rs] eqn:Hl; [contradiction|].
    cbn [length Nat.eqb].
    destruct (js_index_in_range (r0 :: rs)
                (randomIndex random (length (r0 :: rs)))) as (r & Hx & Hin).
    { apply randomIndex_range; [exact Hd|cbn; lia]. }
    exists r. cbn [length] in Hx. rewrite Hx.
    split; [reflexivity|]. split; [exact Hin|].
    destruct (relayer_inv_reachable v s Hr) as (_ & Hiff & _).
    apply Hiff. unfold getRelayers in Hl. now rewrite Hl. }
  split; [|split; [|split]].
  - intros Hne. unfold selectRandomRelayer.
    destruct relayerWallets as [|w0 ws]; [contradiction|].
    cbn [length Nat.eqb].
    destruct (js_index_in_range (w0 :: ws)
                (randomIndex random (length (w0 :: ws)))) as (w & Hw & Hin).
    { apply randomIndex_range; [exact Hd|cbn; lia]. }
    exists w. split; [|exact Hin]. cbn [length] in Hw. now rewrite Hw.
  - intros ->. reflexivity.
  - exact Hsel.
  - split.
    + intros Hthrown. destruct failure as [message|]; [right; discriminate|].
      left. destruct (getRelayers s) as [|r0 rs] eqn:Hl; [reflexivity|].
      destruct (Hsel ltac:(discriminate)) as (r & Hret & _).
      rewrite Hret in Hthrown. discriminate Hthrown.
    + intros [Hempty|Hfail].
      * destruct failure as [message|]; [reflexivity|].
        unfold contract_getRelayers. rewrite Hempty. reflexivity.
      * destruct failure as [message|]; [reflexivity|].
        now contradiction Hfail.
Qed.

Lemma select_relayer_member_witness :
  unit_double (1 # 2)
  /\ reachable (MockSemaphoreVerifier true) fixture_open
  /\ (exists w, selectRandomRelayer [7; 8; 9] (1 # 2) = Returned (Some w)
                /\ w ∈ [7; 8; 9])
  /\ (exists r, getRandomRelayer (contract_getRelayers None fixture_open)
                  (1 # 2)
                = Returned (Some r)
                /\ r ∈ getRelayers fixture_open
                /\ isAuthorizedRelayer fixture_open r = true).
Proof.
  split; [exact unit_double_half|].
  split; [exact fixture_open_reachable|].
  destruct (select_relayer_member N [7; 8; 9] (MockSemaphoreVerifier true)
              fixture_open None (1 # 2) unit_double_half
              fixture_open_reachable) as (H1 & _ & H3 & _).
  - reflexivity.
  - reflexivity.
  - split; [apply H1; discriminate|apply H3; discriminate].
Defined.

(** The doubles written [0.1] and [1/3], the exact value of a double, the
    smallest subnormal and a tie between two doubles. *)
Example round_double_examples :
  Qred (round_double (1 # 10)) = (3602879701896397 # 36028797018963968)%Q
  /\ Qred (round_double (1 # 3)) = (6004799503160661 # 18014398509481984)%Q
  /\ Qred (round_double (3 # 4)) = (3 # 4)%Q
  /\ Qeq (round_double (inject_Z 1 / inject_Z (2 ^ 1074)))
         (inject_Z 1 / inject_Z (2 ^ 1074))
  /\ Qred (round_double (18014398509481983 # 9007199254740992)) = 2%Q.
Proof. repeat split; vm_compute; reflexivity. Qed.

(** The draw 6004799503160661 / 2^53 times 3 is 2 - 2^-53, halfway between
    two doubles: the product is rounded to 2, and the index is 2. *)
Example select_relayer_examples :
  selectRandomRelayer [7; 8; 9] (1 # 2) = Returned (Some 8)
  /\ selectRandomRelayer [7; 8; 9] (127 # 128) = Returned (Some 9)
  /\ selectRandomRelayer [7; 8; 9] (6004799503160661 # 9007199254740992)
     = Returned (Some 9)
  /\ selectRandomRelayer (@nil N) (1 # 2)
     = Thrown "No relayer wallets available"
  /\ getRandomRelayer (contract_getRelayers None fixture_open) 0
     = Returned (Some fixture_relayer)
  /\ getRandomRelayer (contract_getRelayers None fixture_deployed) 0
     = Thrown "No authorized relayers found"
  /\ getRandomRelayer (Thrown "network error") 0
     = Thrown "No authorized relayers found".
Proof. repeat split; reflexivity. Qed.


(** * Further properties of the ledger *)

(** ** Remaining time *)

(** X1. [getRemainingTime] never reverts. It answers zero exactly from
    [votingEndTime] on and the distance to [votingEndTime] before; while
    voting is active that is at most the length of the window, and an
    unconfigured ledger always answers zero. *)
Theorem remaining_time (v : verifier) (s : state) (e : env) :
  reachable v s ->
  exists r,
    getRemainingTime e s = Ok r
    /\ (r = 0 <-> votingEndTime s <= block_timestamp e)
    /\ (block_timestamp e <= votingEndTime s ->
        block_timestamp e + r = votingEndTime s)
    /\ (isVotingActive e s = true ->
        r <= votingEndTime s - votingStartTime s)
    /\ (votingInitialized s = false -> r = 0).
Proof.
  intros Hr. destruct (config_inv_reachable v s Hr) as (_ & Hu & _).
  unfold getRemainingTime, checked_sub.
  destruct (votingEndTime s <? block_timestamp e) eqn:Hlt.
  - apply N.ltb_lt in Hlt. exists 0.
    split; [reflexivity|]. split; [split; [lia|reflexivity]|].
    split; [lia|]. split; [lia|reflexivity].
  - apply N.ltb_ge in Hlt.
    rewrite (proj2 (N.leb_le _ _) Hlt).
    exists (votingEndTime s - block_timestamp e).
    split; [reflexivity|]. split; [lia|]. split; [lia|]. split.
    + unfold isVotingActive. intros Ha.
      apply andb_true_iff in Ha as [Ha _].
      apply andb_true_iff in Ha as [Ha _].
      apply andb_true_iff in Ha as [_ Ha].
      apply N.leb_le in Ha. lia.
    + intros Hi. destruct (Hu Hi) as (_ & -> & _). lia.
Qed.

Lemma remaining_time_witness :
  reachable (MockSemaphoreVerifier true) fixture_open
  /\ getRemainingTime (mkEnv fixture_relayer (fixture_start + 100))
       fixture_open = Ok 3500
  /\ getRemainingTime (mkEnv fixture_relayer (fixture_end + 1))
       fixture_open = Ok 0.
Proof.
  split; [exact fixture_open_reachable|].
  destruct (remaining_time (MockSemaphoreVerifier true) fixture_open
              (mkEnv fixture_relayer (fixture_start + 100))
              fixture_open_reachable) as (r & Hr & _ & Hsum & _).
  split; [|reflexivity].
  assert (H : 1200 + r = 4700) by (apply Hsum; discriminate).
  rewrite Hr. f_equal. lia.
Defined.

(** ** Votes and [isVotingActive] *)

(** X3. No vote is ever accepted while [isVotingActive] answers false: in a
    reachable state such a [castVote] fails and leaves the state alone. *)
Theorem votes_only_while_active (v : verifier) (s : state) (e : env)
    (cid nh : uint256) (a : uint_2) (b : uint_2_2) (c : uint_2)
    (ps : uint_4) (d : uint256) :
  reachable v s -> isVotingActive e s = false ->
  succeeds v e (CastVote cid nh a b c ps d) s = false
  /\ execute v e (CastVote cid nh a b c ps d) s = s.
Proof.
  intros Hr Hna. destruct (config_inv_reachable v s Hr) as (_ & Hu & _).
  assert (Hf : succeeds v e (CastVote cid nh a b c ps d) s = false).
  { destruct (succeeds v e (CastVote cid nh a b c ps d) s) eqn:Hs;
      [|reflexivity].
    apply castVote_succeeds_iff in Hs.
    destruct Hs as (_ & Hp & [Ht1 Ht2] & _ & Hc & _).
    unfold isVotingActive in Hna. rewrite Hp in Hna.
    apply N.leb_le in Ht1, Ht2. rewrite Ht1, Ht2 in Hna.
    destruct (votingInitialized s) eqn:Hi; [discriminate Hna|].
    destruct (Hu eq_refl) as (_ & _ & Hcc). lia. }
  split; [exact Hf|]. now apply execute_reverted.
Qed.

Lemma votes_only_while_active_witness :
  reachable (MockSemaphoreVerifier true) fixture_deployed
  /\ isVotingActive (mkEnv fixture_relayer 0) fixture_deployed = false
  /\ succeeds (MockSemaphoreVerifier true) (mkEnv fixture_relayer 0)
       (fixture_vote 0 170) fixture_deployed = false.
Proof.
  split; [exact fixture_deployed_reachable|]. split; [reflexivity|].
  apply (votes_only_while_active (MockSemaphoreVerifier true)
           fixture_deployed (mkEnv fixture_relayer 0) 0 170 (1, 2)
           ((3, 4), (5, 6)) (7, 8) (0, 12345, 999, 1) 20
           fixture_deployed_reachable eq_refl).
Defined.

(** ** Result percentages *)




(** ** Memory arrays *)




Lemma counts_loop_ext (s1 s2 : state) (fuel : nat) :
  (forall i, getVoteCount s1 i = getVoteCount s2 i) ->
  forall (i : N) (l : list N),
    counts_loop s1 i fuel l = counts_loop s2 i fuel l.
Proof.
  intros Hext. induction fuel as [|fuel IH]; intros i l; [reflexivity|].
  cbn [counts_loop]. now rewrite Hext, IH.
Qed.



Lemma getAllVoteCounts_ext (s1 s2 : state) :
  voteCounts s1 = voteCounts s2 -> candidateCount s1 = candidateCount s2 ->
  getAllVoteCounts s1 = getAllVoteCounts s2.
Proof.
  intros Hv Hc. unfold getAllVoteCounts. rewrite Hc.
  destruct (new_array (candidateCount s2)) as [counts|err]; [|reflexivity].
  f_equal. apply counts_loop_ext. intros i. unfold getVoteCount.
  now rewrite Hv.
Qed.





(** ** The audit trail *)

Lemma cast_nullifiers_app (l1 l2 : list event) :
  cast_nullifiers (l1 ++ l2) = cast_nullifiers l1 ++ cast_nullifiers l2.
Proof.
  induction l1 as [|ev l1 IH]; [reflexivity|].
  destruct ev; cbn; rewrite IH; reflexivity.
Qed.

Lemma cast_candidates_app (l1 l2 : list event) :
  cast_candidates (l1 ++ l2) = cast_candidates l1 ++ cast_candidates l2.
Proof.
  induction l1 as [|ev l1 IH]; [reflexivity|].
  destruct ev; cbn; rewrite IH; reflexivity.
Qed.

Lemma audit_inv_other_event (s s' : state) (ev : event) :
  events s' = events s ++ [ev] ->
  cast_nullifiers [ev] = [] -> cast_candidates [ev] = [] ->
  usedNullifiers s' = usedNullifiers s -> voteCounts s' = voteCounts s ->
  totalVotes s' = totalVotes s ->
  (forall c, c < candidateCount s -> c < candidateCount s') ->
  audit_inv s -> audit_inv s'.
Proof.
  intros Hev Hn Hc Hu Hv Ht Hcc (H1 & H2 & H3 & H4 & H5).
  unfold audit_inv, isNullifierUsed, getVoteCount.
  rewrite Hev, Hu, Hv, Ht, cast_nullifiers_app, cast_candidates_app, Hn, Hc,
    !app_nil_r.
  repeat split; try assumption; try apply H2.
  intros c Hin. apply Hcc, H5, Hin.
Qed.

Lemma audit_inv_step (v : verifier) (s : state) (e : env) (c : call) :
  config_inv s -> audit_inv s -> audit_inv (execute v e c s).
Proof.
  intros Hcfg Hs. apply execute_cases; try exact Hs;
    try (intros; eapply audit_inv_other_event; [..|exact Hs];
         try reflexivity; intros ? Hlt; exact Hlt).
  - (* initializeVoting: no candidate was recorded before *)
    intros g st en cc _ _ Hi _ _ _.
    eapply audit_inv_other_event; [..|exact Hs]; try reflexivity.
    destruct Hcfg as (_ & Hu & _). destruct (Hu Hi) as (_ & _ & Hz).
    intros c' Hc'. lia.
  - (* castVote *)
    intros cid nh a b c' ps d _ _ _ _ _ Hcid _ Hused _ _ _.
    destruct Hs as (H1 & H2 & H3 & H4 & H5).
    unfold audit_inv. cbn [events castVote_commit].
    rewrite cast_nullifiers_app, cast_candidates_app.
    cbn [cast_nullifiers cast_candidates].
    split; [|split; [|split; [|split]]].
    + apply NoDup_app. split; [exact H1|]. split; [|apply NoDup_singleton].
      intros x Hx Hx'. apply list_elem_of_singleton in Hx' as ->.
      apply H2 in Hx. congruence.
    + intros n. rewrite elem_of_app, list_elem_of_singleton, H2.
      unfold isNullifierUsed. cbn.
      destruct (decide (nh = n)) as [->|Hne].
      * rewrite mapping_get_insert_eq. tauto.
      * rewrite mapping_get_insert_ne by exact Hne.
        split; [intros [H|H]; [exact H|congruence]|tauto].
    + intros k. rewrite count_occ_app. cbn [count_occ].
      destruct (N.eq_dec cid k) as [->|Hne].
      * rewrite getVoteCount_commit_eq, H3. lia.
      * rewrite getVoteCount_commit_ne by congruence. rewrite H3. lia.
    + change (totalVotes (castVote_commit e cid nh s))
        with (totalVotes s + 1).
      rewrite H4, length_app. cbn [length]. lia.
    + intros k. rewrite elem_of_app, list_elem_of_singleton. cbn.
      intros [Hk| ->]; [now apply H5|exact Hcid].
Qed.

Lemma audit_inv_reachable (v : verifier) (s : state) :
  reachable v s -> audit_inv s.
Proof.
  intros Hr.
  enough (H : config_inv s /\ audit_inv s) by apply H.
  revert Hr.
  apply (reachable_invariant v (fun s0 => config_inv s0 /\ audit_inv s0)).
  - intros o _. split.
    + split; [|split]; cbn; [discriminate|auto|reflexivity].
    + unfold audit_inv. cbn. split; [apply NoDup_nil_2|].
      split; [|split; [|split]]; try reflexivity.
      * intros n. unfold isNullifierUsed. cbn.
        rewrite mapping_get_empty.
        split; [intros H; now apply elem_of_nil in H|discriminate].
      * intros c H. now apply elem_of_nil in H.
  - intros s' e c [H1 H2]. split.
    + now apply config_inv_step.
    + now apply audit_inv_step.
Qed.

(** X4. The log is a faithful audit trail: in every reachable state the
    [VoteCast] records carry pairwise different nullifiers, a nullifier is
    marked used exactly when a record carries it, each candidate's count is
    the number of records naming that candidate, [totalVotes] is the number
    of records, and every recorded candidate id is below [candidateCount]. *)
Theorem audit_trail (v : verifier) (s : state) :
  reachable v s ->
  NoDup (cast_nullifiers (events s))
  /\ (forall n, n ∈ cast_nullifiers (events s) <-> isNullifierUsed s n = true)
  /\ (forall c,
        getVoteCount s c
        = N.of_nat (count_occ N.eq_dec (cast_candidates (events s)) c))
  /\ totalVotes s = N.of_nat (length (cast_candidates (events s)))
  /\ totalVotes s = N.of_nat (length (cast_nullifiers (events s)))
  /\ (forall c, c ∈ cast_candidates (events s) -> c < candidateCount s).
Proof.
  intros Hr. destruct (audit_inv_reachable v s Hr) as (H1 & H2 & H3 & H4 & H5).
  repeat split; try assumption; try apply H2.
  rewrite H4. f_equal. clear.
  induction (events s) as [|ev l IH]; [reflexivity|].
  destruct ev; cbn; congruence.
Qed.

Lemma audit_trail_witness :
  reachable (MockSemaphoreVerifier true) fixture_voted
  /\ cast_nullifiers (events fixture_voted) = [170; 187]
  /\ totalVotes fixture_voted
     = N.of_nat (length (cast_candidates (events fixture_voted))).
Proof.
  split; [exact fixture_voted_reachable|]. split; [reflexivity|].
  destruct (audit_trail (MockSemaphoreVerifier true) fixture_voted
              fixture_voted_reachable) as (_ & _ & _ & H & _).
  exact H.
Defined.

(** ** Pausing *)

(** The log is write-only: no entry point reads it. *)
Lemma succeeds_add_event (v : verifier) (e : env) (c : call) (ev : event)
    (s : state) :
  succeeds v e c (add_event ev s) = succeeds v e c s.
Proof.
  unfold succeeds, dispatch. destruct c.
  - rewrite !initializeVoting_unfold.
    cbn [add_event owner votingInitialized]. case_guards; reflexivity.
  - rewrite !addRelayer_unfold. unfold isAuthorizedRelayer.
    cbn [add_event owner authorizedRelayers]. case_guards; reflexivity.
  - rewrite !removeRelayer_unfold. unfold isAuthorizedRelayer.
    cbn [add_event owner authorizedRelayers]. case_guards; reflexivity.
  - rewrite !castVote_unfold.
    unfold isAuthorizedRelayer, isNullifierUsed, getVoteCount.
    cbn [add_event entered paused votingStartTime votingEndTime
         authorizedRelayers candidateCount usedNullifiers voteCounts
         totalVotes].
    destruct (v a b c publicSignals merkleTreeDepth) as [[|]|err];
      case_guards; reflexivity.
  - rewrite !pauseVoting_unfold. cbn [add_event owner paused].
    case_guards; reflexivity.
  - rewrite !unpauseVoting_unfold. cbn [add_event owner paused].
    case_guards; reflexivity.
  - rewrite !transferOwnership_unfold. cbn [add_event owner].
    case_guards; reflexivity.
  - rewrite !renounceOwnership_unfold. cbn [add_event owner].
    case_guards; reflexivity.
Qed.

(** X5. When the owner pauses an unpaused contract, every [castVote] is
    rejected with [EnforcedPause] and [isVotingActive] answers false; when
    the owner then unpauses, the storage is what it was before the pause
    (only the two events are added to the log), so every transaction is
    accepted afterwards exactly when it would have been accepted before. *)
Theorem pause_unpause_round_trip (v : verifier) (s : state) (e1 e2 : env) :
  msg_sender e1 = owner s -> msg_sender e2 = owner s ->
  paused s = false -> entered s = false ->
  (forall e cid nh a b c ps d,
     failure v e (CastVote cid nh a b c ps d) (execute v e1 PauseVoting s)
     = Some EnforcedPause)
  /\ (forall e, isVotingActive e (execute v e1 PauseVoting s) = false)
  /\ execute v e2 UnpauseVoting (execute v e1 PauseVoting s)
     = add_event (Unpaused (msg_sender e2))
         (add_event (Paused (msg_sender e1)) s)
  /\ (forall e c,
        succeeds v e c (execute v e2 UnpauseVoting (execute v e1 PauseVoting s))
        = succeeds v e c s).
Proof.
  intros Ho1 Ho2 Hp He.
  assert (H1 : execute v e1 PauseVoting s
               = add_event (Paused (msg_sender e1)) (set_paused true s)).
  { unfold execute, dispatch. rewrite pauseVoting_unfold, Hp.
    now rewrite (proj2 (N.eqb_eq _ _) Ho1). }
  assert (H2 : execute v e2 UnpauseVoting (execute v e1 PauseVoting s)
               = add_event (Unpaused (msg_sender e2))
                   (add_event (Paused (msg_sender e1)) s)).
  { rewrite H1. unfold execute, dispatch. rewrite unpauseVoting_unfold.
    cbn [add_event set_paused owner paused].
    rewrite (proj2 (N.eqb_eq _ _) Ho2).
    destruct s; cbn in *. subst. reflexivity. }
  split; [|split; [|split]].
  - intros e cid nh a b c ps d. rewrite H1. unfold failure, dispatch.
    rewrite castVote_unfold. cbn [add_event set_paused entered paused].
    now rewrite He.
  - intros e. rewrite H1. unfold isVotingActive.
    cbn [add_event set_paused paused negb]. apply andb_false_r.
  - exact H2.
  - intros e c. rewrite H2. now rewrite !succeeds_add_event.
Qed.

Lemma pause_unpause_round_trip_witness :
  msg_sender (mkEnv fixture_owner 1101) = owner fixture_open
  /\ paused fixture_open = false /\ entered fixture_open = false
  /\ succeeds (MockSemaphoreVerifier true) (mkEnv fixture_relayer 1103)
       (fixture_vote 0 170)
       (execute (MockSemaphoreVerifier true) (mkEnv fixture_owner 1102)
          UnpauseVoting
          (execute (MockSemaphoreVerifier true) (mkEnv fixture_owner 1101)
             PauseVoting fixture_open))
     = succeeds (MockSemaphoreVerifier true) (mkEnv fixture_relayer 1103)
         (fixture_vote 0 170) fixture_open.
Proof.
  split; [reflexivity|]. split; [reflexivity|]. split; [reflexivity|].
  destruct (pause_unpause_round_trip (MockSemaphoreVerifier true) fixture_open
              (mkEnv fixture_owner 1101) (mkEnv fixture_owner 1102)
              eq_refl eq_refl eq_refl eq_refl) as (_ & _ & _ & H).
  apply H.
Defined.

(** ** Who can change what *)

(** X6. A transaction sent by an account that is not the owner changes
    neither the owner, the pause flag, the round configuration nor the
    relayer registry; if the sender is not an authorized relayer either, the
    transaction fails and changes nothing at all. *)
Theorem access_control (v : verifier) (s : state) (e : env) (c : call) :
  msg_sender e <> owner s ->
  owner (execute v e c s) = owner s
  /\ paused (execute v e c s) = paused s
  /\ votingInitialized (execute v e c s) = votingInitialized s
  /\ round_config (execute v e c s) = round_config s
  /\ authorizedRelayers (execute v e c s) = authorizedRelayers s
  /\ relayerAddresses (execute v e c s) = relayerAddresses s
  /\ (isAuthorizedRelayer s (msg_sender e) = false ->
      succeeds v e c s = false /\ execute v e c s = s).
Proof.
  intros Hno.
  assert (Hadmin : owner (execute v e c s) = owner s
                   /\ paused (execute v e c s) = paused s
                   /\ votingInitialized (execute v e c s)
                      = votingInitialized s
                   /\ round_config (execute v e c s) = round_config s
                   /\ authorizedRelayers (execute v e c s)
                      = authorizedRelayers s
                   /\ relayerAddresses (execute v e c s)
                      = relayerAddresses s).
  { apply execute_cases; try (intros; congruence);
      try (intros; repeat split; reflexivity). }
  destruct Hadmin as (H1 & H2 & H3 & H4 & H5 & H6).
  repeat (split; [assumption|]).
  intros Hna.
  assert (Hf : succeeds v e c s = false).
  { destruct (succeeds v e c s) eqn:Hs; [|reflexivity]. exfalso.
    revert Hs. unfold succeeds.
    apply (dispatch_cases v
             (fun r => match r with Ok _ => true | Revert _ => false end
                       = true -> False));
      intros; congruence. }
  split; [exact Hf|]. now apply execute_reverted.
Qed.

Lemma access_control_witness :
  msg_sender (mkEnv 99 1101) <> owner fixture_open
  /\ isAuthorizedRelayer fixture_open 99 = false
  /\ execute (MockSemaphoreVerifier true) (mkEnv 99 1101)
       (fixture_vote 0 170) fixture_open = fixture_open.
Proof.
  assert (H : msg_sender (mkEnv 99 1101) <> owner fixture_open)
    by discriminate.
  split; [exact H|]. split; [reflexivity|].
  destruct (access_control (MockSemaphoreVerifier true) fixture_open
              (mkEnv 99 1101) (fixture_vote 0 170) H)
    as (_ & _ & _ & _ & _ & _ & H').
  apply H'. reflexivity.
Defined.

(** ** The nullifier argument and the proof *)

(** X7. [castVote] never compares its [nullifierHash] argument with the
    public signals: once a vote has been accepted, the same proof and public
    signals are accepted again, from the same relayer inside the window,
    under any other nullifier value that is still unused, and count a second
    time for the same candidate. *)
Theorem proof_accepted_again_under_other_nullifier (v : verifier) (s : state)
    (e e' : env) (cid nh nh' : uint256) (a : uint_2) (b : uint_2_2)
    (c : uint_2) (ps : uint_4) (d : uint256) :
  succeeds v e (CastVote cid nh a b c ps d) s = true ->
  nh' <> nh -> isNullifierUsed s nh' = false ->
  msg_sender e' = msg_sender e ->
  votingStartTime s <= block_timestamp e' <= votingEndTime s ->
  getVoteCount s cid + 2 <= MAX_UINT256 -> totalVotes s + 2 <= MAX_UINT256 ->
  succeeds v e' (CastVote cid nh' a b c ps d)
    (execute v e (CastVote cid nh a b c ps d) s) = true
  /\ getVoteCount
       (execute v e' (CastVote cid nh' a b c ps d)
          (execute v e (CastVote cid nh a b c ps d) s)) cid
     = getVoteCount s cid + 2.
Proof.
  intros Hs Hne Hfree Hsender Hwin Hv1 Hv2.
  pose proof (castVote_success_commit v e cid nh a b c ps d s Hs) as Hcommit.
  apply castVote_succeeds_iff in Hs.
  destruct Hs as (He & Hp & _ & Ha & Hc & Hsig & Hn & Hv & _ & _).
  assert (Hs2 : succeeds v e' (CastVote cid nh' a b c ps d)
                  (execute v e (CastVote cid nh a b c ps d) s) = true).
  { apply castVote_succeeds_iff. rewrite Hcommit.
    rewrite getVoteCount_commit_eq.
    unfold isAuthorizedRelayer, isNullifierUsed in *. cbn.
    rewrite Hsender. rewrite mapping_get_insert_ne by congruence.
    repeat split; try assumption; try lia; apply Hwin. }
  split; [exact Hs2|].
  rewrite (castVote_success_commit v e' cid nh' a b c ps d _ Hs2).
  rewrite getVoteCount_commit_eq, Hcommit, getVoteCount_commit_eq. lia.
Qed.

Lemma proof_accepted_again_under_other_nullifier_witness :
  succeeds (MockSemaphoreVerifier true) (mkEnv fixture_relayer 1101)
    (fixture_vote 0 170) fixture_open = true
  /\ getVoteCount
       (execute (MockSemaphoreVerifier true) (mkEnv fixture_relayer 1102)
          (fixture_vote 0 171)
          (execute (MockSemaphoreVerifier true) (mkEnv fixture_relayer 1101)
             (fixture_vote 0 170) fixture_open)) 0
     = getVoteCount fixture_open 0 + 2.
Proof.
  split; [reflexivity|].
  apply (proof_accepted_again_under_other_nullifier
           (MockSemaphoreVerifier true) fixture_open
           (mkEnv fixture_relayer 1101) (mkEnv fixture_relayer 1102)
           0 170 171 (1, 2) ((3, 4), (5, 6)) (7, 8) (0, 12345, 999, 1) 20);
    try reflexivity; try discriminate.
  split; discriminate.
Defined.

(** ** Outside the window *)

Lemma outside_window_step (v : verifier) (s : state) (e : env) (c : call) :
  votingInitialized s = true -> outside_window s e ->
  voteCounts (execute v e c s) = voteCounts s
  /\ usedNullifiers (execute v e c s) = usedNullifiers s
  /\ totalVotes (execute v e c s) = totalVotes s
  /\ votingInitialized (execute v e c s) = true
  /\ votingStartTime (execute v e c s) = votingStartTime s
  /\ votingEndTime (execute v e c s) = votingEndTime s
  /\ candidateCount (execute v e c s) = candidateCount s.
Proof.
  intros Hi Hout. apply execute_cases;
    try (intros; repeat split; first [reflexivity | assumption]).
  - intros; congruence.
  - intros cid nh a b c' ps d _ _ _ Hwin _ _ _ _ _ _ _.
    unfold outside_window in Hout. lia.
Qed.

(** X8. The result is final outside the window: a trace of transactions
    whose timestamps all lie before [votingStartTime] or after
    [votingEndTime] of a configured round accepts no vote and leaves the
    counts, [totalVotes], the used nullifiers and the array
    [getAllVoteCounts] returns as they were. *)
Theorem final_outside_window (v : verifier) (tr : trace) (s : state) :
  votingInitialized s = true ->
  Forall (fun ec => outside_window s (fst ec)) tr ->
  voteCounts (run v tr s) = voteCounts s
  /\ usedNullifiers (run v tr s) = usedNullifiers s
  /\ totalVotes (run v tr s) = totalVotes s
  /\ getAllVoteCounts (run v tr s) = getAllVoteCounts s
  /\ successes v is_castVote tr s = 0%nat.
Proof.
  intros Hi Hout.
  enough (H : voteCounts (run v tr s) = voteCounts s
              /\ usedNullifiers (run v tr s) = usedNullifiers s
              /\ totalVotes (run v tr s) = totalVotes s
              /\ candidateCount (run v tr s) = candidateCount s).
  { destruct H as (H1 & H2 & H3 & H4). repeat (split; [assumption|]). split.
    - now apply getAllVoteCounts_ext.
    - pose proof (totalVotes_run v tr s) as Ht. lia. }
  revert s Hi Hout. induction tr as [|[e c] tr IH]; intros s Hi Hout.
  - repeat split.
  - apply Forall_cons in Hout as [He Hout]. cbn [fst] in He.
    destruct (outside_window_step v s e c Hi He)
      as (H1 & H2 & H3 & H4 & H5 & H6 & H7).
    cbn [run].
    destruct (IH (execute v e c s) H4) as (G1 & G2 & G3 & G4).
    { eapply Forall_impl; [exact Hout|].
      intros ec Hec. unfold outside_window in *. now rewrite H5, H6. }
    repeat split; congruence.
Qed.

Lemma final_outside_window_witness :
  votingInitialized fixture_voted = true
  /\ totalVotes
       (run (MockSemaphoreVerifier true)
          [(mkEnv fixture_relayer 5000, fixture_vote 2 200);
           (mkEnv fixture_owner 5001, RemoveRelayer fixture_relayer)]
          fixture_voted)
     = totalVotes fixture_voted.
Proof.
  split; [reflexivity|].
  apply (final_outside_window (MockSemaphoreVerifier true)
           [(mkEnv fixture_relayer 5000, fixture_vote 2 200);
            (mkEnv fixture_owner 5001, RemoveRelayer fixture_relayer)]
           fixture_voted eq_refl).
  repeat constructor; right; reflexivity.
Defined.

(** ** A freshly configured round *)



(** ** The vector of counts *)



(** ** The test verifier *)

(** X11. With [SimpleSemaphoreVerifier] installed the proof is not looked
    at: the outcome of [castVote] is the same for all values of [a], [b],
    [c]; it is never [InvalidProof]; a call that passes the contract's own
    checks succeeds when [1 <= merkleTreeDepth <= 32] and the counters have
    room, and fails with the verifier's "Invalid merkle tree depth"
    otherwise. *)
Theorem simple_verifier_ignores_proof (s : state) (e : env)
    (cid nh : uint256) (a a' : uint_2) (b b' : uint_2_2) (c c' : uint_2)
    (ps : uint_4) (d : uint256) :
  dispatch SimpleSemaphoreVerifier e (CastVote cid nh a b c ps d) s
  = dispatch SimpleSemaphoreVerifier e (CastVote cid nh a' b' c' ps d) s
  /\ failure SimpleSemaphoreVerifier e (CastVote cid nh a b c ps d) s
     <> Some InvalidProof
  /\ (entered s = false -> paused s = false ->
      votingStartTime s <= block_timestamp e <= votingEndTime s ->
      isAuthorizedRelayer s (msg_sender e) = true ->
      cid < candidateCount s -> cid = signal0 ps ->
      isNullifierUsed s nh = false ->
      (1 <= d <= 32 ->
       getVoteCount s cid + 1 <= MAX_UINT256 ->
       totalVotes s + 1 <= MAX_UINT256 ->
       succeeds SimpleSemaphoreVerifier e (CastVote cid nh a b c ps d) s
       = true)
      /\ (d = 0 \/ 32 < d ->
          failure SimpleSemaphoreVerifier e (CastVote cid nh a b c ps d) s
          = Some (Error "Invalid merkle tree depth"))).
Proof.
  split; [|split].
  - unfold dispatch. rewrite !castVote_unfold. reflexivity.
  - unfold failure, dispatch. rewrite castVote_unfold.
    unfold SimpleSemaphoreVerifier.
    destruct (entered s); [discriminate|].
    destruct (paused s); [discriminate|].
    destruct (_ || _); [discriminate|].
    destruct (negb (isAuthorizedRelayer s (msg_sender e))); [discriminate|].
    destruct (candidateCount s <=? cid); [discriminate|].
    destruct (negb (cid =? signal0 ps)); [discriminate|].
    destruct (isNullifierUsed s nh); [discriminate|].
    destruct ((0 <? d) && (d <=? 32)); [|discriminate].
    destruct (_ <=? MAX_UINT256); [|discriminate].
    destruct (_ <=? MAX_UINT256); discriminate.
  - intros He Hp Hw Ha Hc Hsig Hn. split.
    + intros [Hd1 Hd2] H1 H2. apply castVote_succeeds_iff.
      repeat split; try assumption; try apply Hw.
      unfold SimpleSemaphoreVerifier.
      rewrite (proj2 (N.ltb_lt 0 d)) by lia.
      now rewrite (proj2 (N.leb_le d 32)) by lia.
    + intros Hd. unfold failure, dispatch.
      rewrite castVote_unfold, He, Hp, Ha, Hn.
      destruct Hw as [Hw1 Hw2]. apply N.ltb_ge in Hw1, Hw2.
      rewrite Hw1, Hw2. cbn [orb negb].
      apply N.leb_gt in Hc. rewrite Hc.
      apply N.eqb_eq in Hsig. rewrite Hsig. cbn [negb].
      unfold SimpleSemaphoreVerifier.
      assert (Hdepth : (0 <? d) && (d <=? 32) = false).
      { apply andb_false_iff. destruct Hd as [->|Hd]; [left; reflexivity|].
        right. apply N.leb_gt. exact Hd. }
      now rewrite Hdepth.
Qed.

Lemma simple_verifier_ignores_proof_witness :
  succeeds SimpleSemaphoreVerifier (mkEnv fixture_relayer 1101)
    (CastVote 0 170 (0, 0) ((0, 0), (0, 0)) (0, 0) (0, 12345, 999, 1) 20)
    fixture_open = true.
Proof.
  destruct (simple_verifier_ignores_proof fixture_open
              (mkEnv fixture_relayer 1101) 0 170 (0, 0) (0, 0)
              ((0, 0), (0, 0)) ((0, 0), (0, 0)) (0, 0) (0, 0)
              (0, 12345, 999, 1) 20) as (_ & _ & H).
  pose proof (H eq_refl eq_refl ltac:(split; discriminate) eq_refl eq_refl
                eq_refl eq_refl) as [G _].
  apply G; [split; discriminate|discriminate|discriminate].
Defined.

(** ** Removing a relayer *)

Lemma removeRelayer_loop_shape (r : N) (l1 l2 : list N) :
  NoDup (l1 ++ r :: l2) ->
  removeRelayer_loop r (l1 ++ r :: l2) 0 (length (l1 ++ r :: l2))
  = l1 ++ match l2 !! (length l2 - 1)%nat with
          | Some x => x :: take (length l2 - 1)%nat l2
          | None => []
          end.
Proof.
  intros Hnd.
  destruct (removeRelayer_loop_found r (l1 ++ r :: l2)
              (length (l1 ++ r :: l2)) 0) as (k & x & Hk & Hx & ->).
  { lia. }
  { exists (length l1). split; [lia|]. apply list_lookup_middle. reflexivity. }
  assert (k = length l1) as ->.
  { eapply NoDup_lookup; [exact Hnd|exact Hk|].
    apply list_lookup_middle. reflexivity. }
  rewrite insert_app_r_alt by lia. rewrite Nat.sub_diag.
  cbn [insert list_insert]. rewrite length_app in *. cbn [length] in *.
  destruct l2 as [|y l2 _] using rev_ind.
  - cbn [length] in *. rewrite app_nil_r.
    replace (length l1 + 1 - 1)%nat with (length l1) by lia.
    cbn. now rewrite take_app_length.
  - rewrite length_app in *. cbn [length] in *.
    assert (x = y) as ->.
    { replace (length l1 + S (length l2 + 1) - 1)%nat
        with (length (l1 ++ r :: l2)) in Hx
        by (rewrite length_app; cbn [length]; lia).
      replace (l1 ++ r :: l2 ++ [y]) with ((l1 ++ r :: l2) ++ [y]) in Hx
        by (now rewrite <- app_assoc).
      rewrite list_lookup_middle in Hx by reflexivity. congruence. }
    replace (length l2 + 1 - 1)%nat with (length l2) by lia.
    rewrite list_lookup_middle by reflexivity.
    rewrite take_app_length.
    replace (l1 ++ y :: l2 ++ [y]) with ((l1 ++ y :: l2) ++ [y])
      by (now rewrite <- app_assoc).
    apply take_app_length'. rewrite length_app. cbn [length]. lia.
Qed.

(** X12. When the owner removes a registered relayer [r], the call
    succeeds; the array shrinks by one: the addresses before [r] keep their
    place, the last address moves into [r]'s slot and the others stay (so
    the order of [getRelayers] can change); [r] is no longer authorized, no
    other authorization changes, and no later vote sent by [r] is
    accepted. *)
Theorem relayer_removal (v : verifier) (s : state) (e : env) (r : address) :
  reachable v s -> msg_sender e = owner s ->
  isAuthorizedRelayer s r = true ->
  succeeds v e (RemoveRelayer r) s = true
  /\ (exists l1 l2,
        getRelayers s = l1 ++ r :: l2
        /\ getRelayers (execute v e (RemoveRelayer r) s)
           = l1 ++ match l2 !! (length l2 - 1)%nat with
                   | Some x => x :: take (length l2 - 1)%nat l2
                   | None => []
                   end)
  /\ S (length (getRelayers (execute v e (RemoveRelayer r) s)))
     = length (getRelayers s)
  /\ isAuthorizedRelayer (execute v e (RemoveRelayer r) s) r = false
  /\ (forall a, a <> r ->
        isAuthorizedRelayer (execute v e (RemoveRelayer r) s) a
        = isAuthorizedRelayer s a)
  /\ (forall e' cid nh a b c ps d,
        msg_sender e' = r ->
        succeeds v e' (CastVote cid nh a b c ps d)
          (execute v e (RemoveRelayer r) s) = false).
Proof.
  intros Hr Ho Ha.
  destruct (relayer_inv_reachable v s Hr) as (Hnd & Hiff & _).
  assert (Hex : execute v e (RemoveRelayer r) s = removeRelayer_commit r s).
  { unfold execute, dispatch. rewrite removeRelayer_unfold, Ha.
    now rewrite (proj2 (N.eqb_eq _ _) Ho). }
  assert (Hin : r ∈ relayerAddresses s) by now apply Hiff.
  apply list_elem_of_split in Hin as (l1 & l2 & Hl).
  assert (Hshape : getRelayers (removeRelayer_commit r s)
                   = l1 ++ match l2 !! (length l2 - 1)%nat with
                           | Some x => x :: take (length l2 - 1)%nat l2
                           | None => []
                           end).
  { unfold getRelayers. cbn [removeRelayer_commit add_event
      set_relayerAddresses set_authorizedRelayers relayerAddresses].
    rewrite Hl. apply removeRelayer_loop_shape. now rewrite <- Hl. }
  assert (Hauth : isAuthorizedRelayer (removeRelayer_commit r s) r = false).
  { unfold isAuthorizedRelayer. cbn. apply mapping_get_insert_eq. }
  rewrite Hex. split; [|split; [|split; [|split; [|split]]]].
  - unfold succeeds, dispatch. rewrite removeRelayer_unfold, Ha.
    now rewrite (proj2 (N.eqb_eq _ _) Ho).
  - exists l1, l2. split; [exact Hl|exact Hshape].
  - rewrite Hshape. unfold getRelayers. rewrite Hl, !length_app.
    cbn [length]. destruct l2 as [|y l2 _] using rev_ind.
    + cbn. lia.
    + rewrite length_app. cbn [length].
      replace (length l2 + 1 - 1)%nat with (length l2) by lia.
      rewrite list_lookup_middle by reflexivity.
      cbn [length]. rewrite take_app_length. lia.
  - exact Hauth.
  - intros a Hne. unfold isAuthorizedRelayer. cbn.
    apply mapping_get_insert_ne. congruence.
  - intros e' cid nh a b c ps d Hsender.
    destruct (succeeds v e' (CastVote cid nh a b c ps d)
                (removeRelayer_commit r s)) eqn:Hs; [|reflexivity].
    apply castVote_succeeds_iff in Hs.
    destruct Hs as (_ & _ & _ & Hs & _). congruence.
Qed.

Lemma relayer_removal_witness :
  reachable (MockSemaphoreVerifier true) fixture_open
  /\ msg_sender (mkEnv fixture_owner 1101) = owner fixture_open
  /\ isAuthorizedRelayer fixture_open fixture_relayer = true
  /\ S (length (getRelayers
                  (execute (MockSemaphoreVerifier true)
                     (mkEnv fixture_owner 1101) (RemoveRelayer fixture_relayer)
                     fixture_open)))
     = length (getRelayers fixture_open).
Proof.
  split; [exact fixture_open_reachable|]. split; [reflexivity|].
  split; [reflexivity|].
  destruct (relayer_removal (MockSemaphoreVerifier true) fixture_open
              (mkEnv fixture_owner 1101) fixture_relayer
              fixture_open_reachable eq_refl eq_refl) as (_ & _ & H & _).
  exact H.
Defined.

(** X13. Removing a relayer undoes adding it: when the owner adds an address
    that is not registered and then removes it, [getRelayers] and every
    authorization are what they were before, and nothing else in storage
    has changed but the log. *)
Theorem add_then_remove_relayer (v : verifier) (s : state) (e1 e2 : env)
    (r : address) :
  reachable v s -> msg_sender e1 = owner s -> msg_sender e2 = owner s ->
  r <> 0 -> isAuthorizedRelayer s r = false ->
  succeeds v e1 (AddRelayer r) s = true
  /\ succeeds v e2 (RemoveRelayer r) (execute v e1 (AddRelayer r) s) = true
  /\ getRelayers (execute v e2 (RemoveRelayer r) (execute v e1 (AddRelayer r) s))
     = getRelayers s
  /\ (forall a,
        isAuthorizedRelayer
          (execute v e2 (RemoveRelayer r) (execute v e1 (AddRelayer r) s)) a
        = isAuthorizedRelayer s a)
  /\ set_authorizedRelayers (authorizedRelayers s)
       (execute v e2 (RemoveRelayer r) (execute v e1 (AddRelayer r) s))
     = add_event (RelayerRemoved r) (add_event (RelayerAdded r) s).
Proof.
  intros Hr Ho1 Ho2 Hr0 Hna.
  destruct (relayer_inv_reachable v s Hr) as (Hnd & Hiff & _).
  assert (Hadd : dispatch v e1 (AddRelayer r) s
                 = Ok (tt, addRelayer_commit r s)).
  { unfold dispatch. rewrite addRelayer_unfold, Hna.
    rewrite (proj2 (N.eqb_eq _ _) Ho1).
    now rewrite (proj2 (N.eqb_neq _ _) Hr0). }
  assert (Hrem : dispatch v e2 (RemoveRelayer r) (addRelayer_commit r s)
                 = Ok (tt, removeRelayer_commit r (addRelayer_commit r s))).
  { unfold dispatch. rewrite removeRelayer_unfold.
    unfold isAuthorizedRelayer. cbn [addRelayer_commit add_event
      set_relayerAddresses set_authorizedRelayers owner authorizedRelayers].
    rewrite mapping_get_insert_eq.
    now rewrite (proj2 (N.eqb_eq _ _) Ho2). }
  assert (Hlist : relayerAddresses
                    (removeRelayer_commit r (addRelayer_commit r s))
                  = relayerAddresses s).
  { cbn [removeRelayer_commit addRelayer_commit add_event
         set_relayerAddresses set_authorizedRelayers relayerAddresses].
    rewrite removeRelayer_loop_shape.
    - cbn. apply app_nil_r.
    - apply NoDup_app. split; [exact Hnd|].
      split; [|apply NoDup_singleton].
      intros x Hx Hx'. apply list_elem_of_singleton in Hx' as ->.
      apply Hiff in Hx. congruence. }
  unfold succeeds, execute. rewrite Hadd, Hrem.
  split; [reflexivity|]. split; [reflexivity|].
  split; [exact Hlist|]. split.
  - intros a. unfold isAuthorizedRelayer.
    cbn [removeRelayer_commit addRelayer_commit add_event
         set_relayerAddresses set_authorizedRelayers authorizedRelayers].
    destruct (decide (r = a)) as [->|Hne].
    + rewrite mapping_get_insert_eq. symmetry. exact Hna.
    + now rewrite !mapping_get_insert_ne by exact Hne.
  - unfold set_authorizedRelayers at 1. rewrite Hlist.
    destruct s; reflexivity.
Qed.

Lemma add_then_remove_relayer_witness :
  reachable (MockSemaphoreVerifier true) fixture_open
  /\ isAuthorizedRelayer fixture_open 8 = false
  /\ getRelayers
       (execute (MockSemaphoreVerifier true) (mkEnv fixture_owner 1002)
          (RemoveRelayer 8)
          (execute (MockSemaphoreVerifier true) (mkEnv fixture_owner 1001)
             (AddRelayer 8) fixture_open))
     = getRelayers fixture_open.
Proof.
  split; [exact fixture_open_reachable|]. split; [reflexivity|].
  destruct (add_then_remove_relayer (MockSemaphoreVerifier true) fixture_open
              (mkEnv fixture_owner 1001) (mkEnv fixture_owner 1002) 8
              fixture_open_reachable eq_refl eq_refl)
    as (_ & _ & H & _).
  - discriminate.
  - reflexivity.
  - exact H.
Defined.

Example relayer_removal_moves_last :
  let v := MockSemaphoreVerifier true in
  let o := mkEnv fixture_owner 1000 in
  getRelayers
    (run v [(o, AddRelayer 8); (o, AddRelayer 9); (o, AddRelayer 10);
            (o, RemoveRelayer 8)] fixture_open)
  = [7; 10; 9].
Proof. reflexivity. Qed.

(** * The relayer management script *)

Section ScriptProperties.

Variable v : verifier.
Variable signer : address.
Variable clock : nat -> uint256.
Variable hash : nat -> N.









End ScriptProperties.








(** * How votes compose *)

(** X17. The verifier comes last: [castVote] depends on the verifier only
    through its answer for the submitted proof, and not at all when one of
    the contract's own checks (reentrancy, pause, window, relayer, candidate
    range, candidate signal, used nullifier) already rejects the call. *)
Theorem verifier_consulted_last (v v' : verifier) (s : state) (e : env)
    (cid nh : uint256) (a : uint_2) (b : uint_2_2) (c : uint_2)
    (ps : uint_4) (d : uint256) :
  (v a b c ps d = v' a b c ps d ->
   dispatch v e (CastVote cid nh a b c ps d) s
   = dispatch v' e (CastVote cid nh a b c ps d) s)
  /\ (~ (entered s = false /\ paused s = false
         /\ votingStartTime s <= block_timestamp e <= votingEndTime s
         /\ isAuthorizedRelayer s (msg_sender e) = true
         /\ cid < candidateCount s /\ cid = signal0 ps
         /\ isNullifierUsed s nh = false) ->
      dispatch v e (CastVote cid nh a b c ps d) s
      = dispatch v' e (CastVote cid nh a b c ps d) s
      /\ succeeds v e (CastVote cid nh a b c ps d) s = false).
Proof.
  unfold succeeds, dispatch. rewrite !castVote_unfold. split.
  - intros ->. reflexivity.
  - intros Hnot.
    destruct (entered s) eqn:He; [split; reflexivity|].
    destruct (paused s) eqn:Hp; [split; reflexivity|].
    destruct ((block_timestamp e <? votingStartTime s)
              || (votingEndTime s <? block_timestamp e)) eqn:Ht;
      [split; reflexivity|].
    destruct (isAuthorizedRelayer s (msg_sender e)) eqn:Ha;
      [|split; reflexivity].
    cbn [negb].
    destruct (candidateCount s <=? cid) eqn:Hc; [split; reflexivity|].
    destruct (cid =? signal0 ps) eqn:Hsig; [|split; reflexivity].
    cbn [negb].
    destruct (isNullifierUsed s nh) eqn:Hn; [split; reflexivity|].
    exfalso. apply Hnot.
    apply orb_false_elim in Ht as [Ht1 Ht2].
    apply N.ltb_ge in Ht1, Ht2. apply N.leb_gt in Hc.
    apply N.eqb_eq in Hsig. repeat split; assumption.
Qed.

Lemma verifier_consulted_last_witness :
  dispatch (MockSemaphoreVerifier true) (mkEnv fixture_relayer 1101)
    (fixture_vote 0 170) fixture_voted
  = dispatch (MockSemaphoreVerifier false) (mkEnv fixture_relayer 1101)
      (fixture_vote 0 170) fixture_voted.
Proof.
  destruct (verifier_consulted_last (MockSemaphoreVerifier true)
              (MockSemaphoreVerifier false) fixture_voted
              (mkEnv fixture_relayer 1101) 0 170 (1, 2) ((3, 4), (5, 6))
              (7, 8) (0, 12345, 999, 1) 20) as [_ H].
  apply H. intros (_ & _ & _ & _ & _ & _ & Hn). discriminate Hn.
Defined.

(** X18. Relayers are interchangeable: in the same block the same vote is
    accepted from one authorized relayer exactly when it is accepted from
    another, and both leave the same storage; only the relayer field of the
    [VoteCast] record tells them apart. *)
Theorem relayers_interchangeable (v : verifier) (s : state) (e1 e2 : env)
    (cid nh : uint256) (a : uint_2) (b : uint_2_2) (c : uint_2)
    (ps : uint_4) (d : uint256) :
  isAuthorizedRelayer s (msg_sender e1) = true ->
  isAuthorizedRelayer s (msg_sender e2) = true ->
  block_timestamp e1 = block_timestamp e2 ->
  succeeds v e1 (CastVote cid nh a b c ps d) s
  = succeeds v e2 (CastVote cid nh a b c ps d) s
  /\ same_storage (execute v e1 (CastVote cid nh a b c ps d) s)
       (execute v e2 (CastVote cid nh a b c ps d) s)
  /\ (succeeds v e1 (CastVote cid nh a b c ps d) s = true ->
      events (execute v e1 (CastVote cid nh a b c ps d) s)
      = events s ++ [VoteCast cid nh (msg_sender e1) (block_timestamp e1)]
      /\ events (execute v e2 (CastVote cid nh a b c ps d) s)
         = events s ++ [VoteCast cid nh (msg_sender e2) (block_timestamp e1)]).
Proof.
  intros Ha1 Ha2 Hts.
  assert (Heq : succeeds v e1 (CastVote cid nh a b c ps d) s
                = succeeds v e2 (CastVote cid nh a b c ps d) s).
  { assert (Himp : forall ea eb,
               isAuthorizedRelayer s (msg_sender eb) = true ->
               block_timestamp ea = block_timestamp eb ->
               succeeds v ea (CastVote cid nh a b c ps d) s = true ->
               succeeds v eb (CastVote cid nh a b c ps d) s = true).
    { intros ea eb Hb Heqts H. apply castVote_succeeds_iff in H.
      destruct H as (G1 & G2 & G3 & _ & G5).
      apply castVote_succeeds_iff. rewrite <- Heqts.
      repeat split; try assumption; try apply G3; apply G5. }
    destruct (succeeds v e1 (CastVote cid nh a b c ps d) s) eqn:H1;
      destruct (succeeds v e2 (CastVote cid nh a b c ps d) s) eqn:H2;
      try reflexivity.
    - rewrite (Himp e1 e2 Ha2 Hts H1) in H2. discriminate.
    - rewrite (Himp e2 e1 Ha1 (eq_sym Hts) H2) in H1. discriminate. }
  split; [exact Heq|].
  destruct (succeeds v e1 (CastVote cid nh a b c ps d) s) eqn:Hs1.
  - symmetry in Heq.
    rewrite (castVote_success_commit v e1 cid nh a b c ps d s Hs1).
    rewrite (castVote_success_commit v e2 cid nh a b c ps d s Heq).
    split; [repeat split|]. intros _. cbn. rewrite Hts. split; reflexivity.
  - symmetry in Heq.
    rewrite (execute_reverted v e1 _ s Hs1), (execute_reverted v e2 _ s Heq).
    split; [repeat split|]. discriminate.
Qed.

Lemma relayers_interchangeable_witness :
  let s := execute (MockSemaphoreVerifier true) (mkEnv fixture_owner 1000)
             (AddRelayer 8) fixture_open in
  isAuthorizedRelayer s 7 = true /\ isAuthorizedRelayer s 8 = true
  /\ same_storage
       (execute (MockSemaphoreVerifier true) (mkEnv 7 1101)
          (fixture_vote 0 170) s)
       (execute (MockSemaphoreVerifier true) (mkEnv 8 1101)
          (fixture_vote 0 170) s).
Proof.
  split; [reflexivity|]. split; [reflexivity|].
  apply (relayers_interchangeable (MockSemaphoreVerifier true)
           (execute (MockSemaphoreVerifier true) (mkEnv fixture_owner 1000)
              (AddRelayer 8) fixture_open)
           (mkEnv 7 1101) (mkEnv 8 1101) 0 170 (1, 2) ((3, 4), (5, 6))
           (7, 8) (0, 12345, 999, 1) 20); reflexivity.
Defined.

(** X19. Accepted votes commute: when two votes are accepted one after the
    other, they carry different nullifiers, they are also accepted in the
    opposite order, and both orders end in the same storage. *)
Theorem votes_commute (v : verifier) (s : state) (e1 e2 : env)
    (cid1 nh1 cid2 nh2 : uint256) (a1 a2 : uint_2) (b1 b2 : uint_2_2)
    (c1 c2 : uint_2) (ps1 ps2 : uint_4) (d1 d2 : uint256) :
  succeeds v e1 (CastVote cid1 nh1 a1 b1 c1 ps1 d1) s = true ->
  succeeds v e2 (CastVote cid2 nh2 a2 b2 c2 ps2 d2)
    (execute v e1 (CastVote cid1 nh1 a1 b1 c1 ps1 d1) s) = true ->
  nh1 <> nh2
  /\ succeeds v e2 (CastVote cid2 nh2 a2 b2 c2 ps2 d2) s = true
  /\ succeeds v e1 (CastVote cid1 nh1 a1 b1 c1 ps1 d1)
       (execute v e2 (CastVote cid2 nh2 a2 b2 c2 ps2 d2) s) = true
  /\ same_storage
       (execute v e2 (CastVote cid2 nh2 a2 b2 c2 ps2 d2)
          (execute v e1 (CastVote cid1 nh1 a1 b1 c1 ps1 d1) s))
       (execute v e1 (CastVote cid1 nh1 a1 b1 c1 ps1 d1)
          (execute v e2 (CastVote cid2 nh2 a2 b2 c2 ps2 d2) s)).
Proof.
  intros Hs1 Hs2.
  pose proof (castVote_success_commit v e1 cid1 nh1 a1 b1 c1 ps1 d1 s Hs1)
    as Hc1.
  pose proof (castVote_success_commit v e2 cid2 nh2 a2 b2 c2 ps2 d2 _ Hs2)
    as Hc12.
  rewrite Hc1 in Hs2, Hc12.
  apply castVote_succeeds_iff in Hs1, Hs2.
  destruct Hs1 as (He & Hp & Hw1 & Ha1 & Hlt1 & Hsig1 & Hn1 & Hv1 & Ho1 & Ht1).
  destruct Hs2 as (_ & _ & Hw2 & Ha2 & Hlt2 & Hsig2 & Hn2 & Hv2 & Ho2 & Ht2).
  cbn [castVote_commit votingStartTime votingEndTime candidateCount
       totalVotes] in Hw2, Hlt2, Ht2.
  unfold isAuthorizedRelayer, isNullifierUsed in Ha2, Hn2.
  cbn [castVote_commit authorizedRelayers usedNullifiers] in Ha2, Hn2.
  assert (Hne : nh1 <> nh2).
  { intros ->. rewrite mapping_get_insert_eq in Hn2. discriminate. }
  rewrite mapping_get_insert_ne in Hn2 by exact Hne.
  assert (Hs2' : succeeds v e2 (CastVote cid2 nh2 a2 b2 c2 ps2 d2) s = true).
  { apply castVote_succeeds_iff. repeat split; try assumption;
      try apply Hw2; try lia.
    destruct (N.eq_dec cid2 cid1) as [->|Hc].
    - rewrite getVoteCount_commit_eq in Ho2. lia.
    - now rewrite getVoteCount_commit_ne in Ho2 by exact Hc. }
  pose proof (castVote_success_commit v e2 cid2 nh2 a2 b2 c2 ps2 d2 s Hs2')
    as Hc2.
  assert (Hs1' : succeeds v e1 (CastVote cid1 nh1 a1 b1 c1 ps1 d1)
                   (execute v e2 (CastVote cid2 nh2 a2 b2 c2 ps2 d2) s)
                 = true).
  { rewrite Hc2. apply castVote_succeeds_iff.
    unfold isAuthorizedRelayer, isNullifierUsed. cbn.
    rewrite mapping_get_insert_ne by congruence.
    repeat split; try assumption; try apply Hw1; try lia.
    destruct (N.eq_dec cid1 cid2) as [->|Hc].
    - rewrite getVoteCount_commit_eq in *. lia.
    - now rewrite getVoteCount_commit_ne by exact Hc. }
  split; [exact Hne|]. split; [exact Hs2'|]. split; [exact Hs1'|].
  rewrite Hc1, Hc12.
  rewrite (castVote_success_commit v e1 cid1 nh1 a1 b1 c1 ps1 d1 _ Hs1').
  rewrite Hc2.
  unfold same_storage, round_config. cbn.
  repeat split; try lia.
  - (* voteCounts *)
    change (mapping_get 0 (<[cid1:=getVoteCount s cid1 + 1]> (voteCounts s)))
      with (getVoteCount (castVote_commit e1 cid1 nh1 s)).
    change (mapping_get 0 (<[cid2:=getVoteCount s cid2 + 1]> (voteCounts s)))
      with (getVoteCount (castVote_commit e2 cid2 nh2 s)).
    destruct (N.eq_dec cid1 cid2) as [->|Hc].
    + now rewrite !getVoteCount_commit_eq.
    + rewrite !getVoteCount_commit_ne by congruence.
      apply insert_insert_ne. congruence.
  - (* usedNullifiers *)
    apply insert_insert_ne. congruence.
Qed.

Lemma votes_commute_witness :
  succeeds (MockSemaphoreVerifier true) (mkEnv fixture_relayer 1101)
    (fixture_vote 0 170) fixture_open = true
  /\ same_storage
       (execute (MockSemaphoreVerifier true) (mkEnv fixture_relayer 1102)
          (fixture_vote 1 187)
          (execute (MockSemaphoreVerifier true) (mkEnv fixture_relayer 1101)
             (fixture_vote 0 170) fixture_open))
       (execute (MockSemaphoreVerifier true) (mkEnv fixture_relayer 1101)
          (fixture_vote 0 170)
          (execute (MockSemaphoreVerifier true) (mkEnv fixture_relayer 1102)
             (fixture_vote 1 187) fixture_open)).
Proof.
  split; [reflexivity|].
  apply (votes_commute (MockSemaphoreVerifier true) fixture_open
           (mkEnv fixture_relayer 1101) (mkEnv fixture_relayer 1102)
           0 170 1 187 (1, 2) (1, 2) ((3, 4), (5, 6)) ((3, 4), (5, 6))
           (7, 8) (7, 8) (0, 12345, 999, 1) (1, 12345, 999, 1) 20 20);
    reflexivity.
Defined.
